(** * WebviewEditorService: webview lifecycle and revival coordinator

    Shallow embedding of
    [src/vs/workbench/contrib/webview/electron-browser/webviewEditorService.ts].

    The service owns two pieces of state, the reviver registry
    ([_revivers], a [Set] iterated in insertion order) and the revival
    queue ([_awaitingRevival], an array).  Everything else it does is a
    call on a collaborator: the editor service, the editor-group service,
    the instantiation service and the revivers themselves.  The embedding
    threads one [Machine] through every operation: it carries the two
    fields, the state of the collaborators, the log of the calls made on
    them, and the continuations the service has parked on promises. *)

From Stdlib Require Import List ListSet ZArith Bool Arith Lia.
From Stdlib Require String.
Import ListNotations.

Definition string : Type := String.string.

Local Open Scope list_scope.

(** ** Data *)

Definition GroupIdentifier := Z.
Definition URI := string.
Definition Promise := nat.

(** Object identity of a reviver: the registry is a [Set] of references. *)
Definition WebviewReviver := nat.

(** [IEditorGroup]: a live group view; only its [id] is read here. *)
Record IEditorGroup : Type := { id : GroupIdentifier }.

(** The [group] member of [ICreateWebViewShowOptions]:
    [IEditorGroup | GroupIdentifier | ACTIVE_GROUP_TYPE | SIDE_GROUP_TYPE]. *)
Inductive GroupTarget : Type :=
| TargetGroup (g : IEditorGroup)
| TargetId (g : GroupIdentifier)
| ACTIVE_GROUP
| SIDE_GROUP.

Record ICreateWebViewShowOptions : Type := {
  group : GroupTarget;
  preserveFocus : bool
}.

(** [WebviewInputOptions]; every member is optional. *)
Record WebviewInputOptions : Type := {
  enableCommandUris : option bool;
  enableFindWidget : option bool;
  enableScripts : option bool;
  retainContextWhenHidden : option bool;
  tryRestoreScrollPosition : option bool;
  localResourceRoots : option (list URI)
}.

(** [WebviewEvents]: three optional handlers, kept as references. *)
Record WebviewEvents : Type := {
  onMessage : option nat;
  onDispose : option nat;
  onDidClickLink : option nat
}.

Definition noEvents : WebviewEvents :=
  {| onMessage := None; onDispose := None; onDidClickLink := None |}.

(** A value of type [any]: the literal [{}] or an opaque payload. *)
Inductive any : Type :=
| emptyObject
| opaque (payload : string).

Record IconPath : Type := { light : URI; dark : URI }.

(** The panel handle.  [handle] is the object's identity; [webview_group]
    is the member the source reads as [webview.group], unset until the
    panel has been placed. *)
Record WebviewEditorInput : Type := {
  handle : nat;
  viewType : string;
  persistedId : option Z;
  title : string;
  inputOptions : WebviewInputOptions;
  state : any;
  events : WebviewEvents;
  extensionLocation : option URI;
  iconPath : option IconPath;
  webview_group : option GroupIdentifier
}.

Definition set_iconPath (x : WebviewEditorInput) (i : option IconPath)
  : WebviewEditorInput :=
  {| handle := handle x; viewType := viewType x; persistedId := persistedId x;
     title := title x; inputOptions := inputOptions x; state := state x;
     events := events x; extensionLocation := extensionLocation x;
     iconPath := i; webview_group := webview_group x |}.

(** One element of [_awaitingRevival]: [{ input, resolve }].  [resolve]
    names the promise whose resolver was stored. *)
Record PendingRevival : Type := {
  input : WebviewEditorInput;
  resolve : Promise
}.

(** Options object handed to [openEditor]; [pinned] is absent in
    [revealWebview]. *)
Record EditorOptions : Type := {
  pinned : option bool;
  opt_preserveFocus : bool
}.

(** Which class [createInstance] is asked to build. *)
Inductive Ctor : Type :=
| WebviewEditorInputCtor
| RevivedWebviewEditorInputCtor.

(** Everything the service does that is visible outside it, in the order
    it happens:
    - [EvCreateInstance c x]: [createInstance] was asked for class [c] and
      gave [x];
    - [EvOpenEditor x o g]: [this._editorService.openEditor(x, o, g)];
    - [EvGetGroup g]: [this._editorGroupService.getGroup(g)];
    - [EvMoveEditor view x target f]:
      [view.moveEditor(x, target, { preserveFocus: f })];
    - [EvCanRevive r x]: [r.canRevive(x)];
    - [EvReviveWebview r x p]: [r.reviveWebview(x)], which returned
      promise [p];
    - [EvResolve q]: the resolver of promise [q] was called, line 165;
    - [EvRevived x]: the callback of lines 139-150 returned
      [Promise.resolve(undefined)] for [x], line 142. *)
Inductive Event : Type :=
| EvCreateInstance (c : Ctor) (x : WebviewEditorInput)
| EvOpenEditor (x : WebviewEditorInput) (o : EditorOptions)
               (g : option GroupTarget)
| EvGetGroup (g : option GroupIdentifier)
| EvMoveEditor (view : IEditorGroup) (x : WebviewEditorInput)
               (target : IEditorGroup) (preserve : bool)
| EvCanRevive (r : WebviewReviver) (x : WebviewEditorInput)
| EvReviveWebview (r : WebviewReviver) (x : WebviewEditorInput) (p : Promise)
| EvResolve (q : Promise)
| EvRevived (x : WebviewEditorInput).

(** What the service has waiting on a promise: the rest of the callback of
    lines 139-150 after its [await], with the value the [await] yields, or
    the [then] of line 165. *)
Inductive Continuation : Type :=
| ResumeCallback (webview : WebviewEditorInput) (didRevive : bool)
| ThenResolve (q : Promise).

(** The collaborators.  Their state is a [World]; a query is answered from
    the world as it stands, and every call may change it. *)
Record Collaborators : Type := {
  World : Type;
  answer_canRevive : World -> WebviewReviver -> WebviewEditorInput -> bool;
  answer_getGroup : World -> option GroupIdentifier -> option IEditorGroup;
  react : Event -> World -> World
}.

Section Service.

Variable C : Collaborators.

(** The service and what surrounds it: the collaborators' state, the log
    of events, the two fields of the class, the continuations parked on
    promises not yet settled, those ready to run, the revived panels whose
    deferred-population callback has not been invoked, and the next free
    panel handle and promise. *)
Record Machine : Type := {
  world : World C;
  calls : list Event;
  _revivers : list WebviewReviver;
  _awaitingRevival : list PendingRevival;
  awaiting : list (Promise * Continuation);
  microtasks : list Continuation;
  unpopulated : list nat;
  nextHandle : nat;
  nextPromise : nat
}.

(** ** A small state monad over [Machine] *)

Definition M (A : Type) : Type := Machine -> A * Machine.

Definition ret {A : Type} (a : A) : M A := fun m => (a, m).

Definition bind {A B : Type} (c : M A) (k : A -> M B) : M B :=
  fun m => let (a, m') := c m in k a m'.

Definition exec {A : Type} (c : M A) (m : Machine) : Machine := snd (c m).
Definition eval {A : Type} (c : M A) (m : Machine) : A := fst (c m).

Notation "x <- c ;; k" := (bind c (fun x => k))
  (at level 61, c at next level, right associativity).
Notation "c ;;; k" := (bind c (fun _ => k))
  (at level 61, right associativity).

(** Field updates. *)

Definition with_log (e : Event) (m : Machine) : Machine :=
  {| world := react C e (world m); calls := calls m ++ [e];
     _revivers := _revivers m; _awaitingRevival := _awaitingRevival m;
     awaiting := awaiting m; microtasks := microtasks m;
     unpopulated := unpopulated m;
     nextHandle := nextHandle m; nextPromise := nextPromise m |}.

Definition with_revivers (rs : list WebviewReviver) (m : Machine) : Machine :=
  {| world := world m; calls := calls m;
     _revivers := rs; _awaitingRevival := _awaitingRevival m;
     awaiting := awaiting m; microtasks := microtasks m;
     unpopulated := unpopulated m;
     nextHandle := nextHandle m; nextPromise := nextPromise m |}.

Definition with_awaitingRevival (q : list PendingRevival) (m : Machine)
  : Machine :=
  {| world := world m; calls := calls m;
     _revivers := _revivers m; _awaitingRevival := q;
     awaiting := awaiting m; microtasks := microtasks m;
     unpopulated := unpopulated m;
     nextHandle := nextHandle m; nextPromise := nextPromise m |}.

Definition with_awaiting (a : list (Promise * Continuation)) (m : Machine)
  : Machine :=
  {| world := world m; calls := calls m;
     _revivers := _revivers m; _awaitingRevival := _awaitingRevival m;
     awaiting := a; microtasks := microtasks m;
     unpopulated := unpopulated m;
     nextHandle := nextHandle m; nextPromise := nextPromise m |}.

Definition with_microtasks (t : list Continuation) (m : Machine) : Machine :=
  {| world := world m; calls := calls m;
     _revivers := _revivers m; _awaitingRevival := _awaitingRevival m;
     awaiting := awaiting m; microtasks := t;
     unpopulated := unpopulated m;
     nextHandle := nextHandle m; nextPromise := nextPromise m |}.

Definition with_unpopulated (u : list nat) (m : Machine) : Machine :=
  {| world := world m; calls := calls m;
     _revivers := _revivers m; _awaitingRevival := _awaitingRevival m;
     awaiting := awaiting m; microtasks := microtasks m;
     unpopulated := u;
     nextHandle := nextHandle m; nextPromise := nextPromise m |}.

Definition with_nextHandle (n : nat) (m : Machine) : Machine :=
  {| world := world m; calls := calls m;
     _revivers := _revivers m; _awaitingRevival := _awaitingRevival m;
     awaiting := awaiting m; microtasks := microtasks m;
     unpopulated := unpopulated m;
     nextHandle := n; nextPromise := nextPromise m |}.

Definition with_nextPromise (n : nat) (m : Machine) : Machine :=
  {| world := world m; calls := calls m;
     _revivers := _revivers m; _awaitingRevival := _awaitingRevival m;
     awaiting := awaiting m; microtasks := microtasks m;
     unpopulated := unpopulated m;
     nextHandle := nextHandle m; nextPromise := n |}.

(** ** Calls on collaborators *)

(** A call that returns nothing the service looks at: it is logged and
    the collaborators react. *)
Definition emit (e : Event) : M unit := fun m => (tt, with_log e m).

(** [reviver.canRevive(webview)]. *)
Definition call_canRevive (reviver : WebviewReviver)
    (webview : WebviewEditorInput) : M bool :=
  fun m => (answer_canRevive C (world m) reviver webview,
            with_log (EvCanRevive reviver webview) m).

(** [reviver.reviveWebview(webview)]: returns a promise of the reviver's. *)
Definition call_reviveWebview (reviver : WebviewReviver)
    (webview : WebviewEditorInput) : M Promise :=
  fun m => let p := nextPromise m in
           (p, with_nextPromise (S p)
                 (with_log (EvReviveWebview reviver webview p) m)).

(** [this._editorGroupService.getGroup(identifier)]. *)
Definition call_getGroup (g : option GroupIdentifier)
  : M (option IEditorGroup) :=
  fun m => (answer_getGroup C (world m) g, with_log (EvGetGroup g) m).

(** [new Promise(r => { resolve = r; })]. *)
Definition newPromise : M Promise :=
  fun m => (nextPromise m, with_nextPromise (S (nextPromise m)) m).

(** Modelled from the spec: the constructors of [WebviewEditorInput] and
    [RevivedWebviewEditorInput] ([webviewEditorInput.ts]) are missing.
    [createInstance] yields a new panel holding the arguments it was given,
    with no icon and no group yet; a revived panel keeps its
    deferred-population callback until its content is first needed. *)
Definition createInstance (c : Ctor) (vt : string) (pid : option Z)
    (name : string) (o : WebviewInputOptions) (st : any) (ev : WebviewEvents)
    (loc : option URI) : M WebviewEditorInput :=
  fun m =>
    let x := {| handle := nextHandle m; viewType := vt; persistedId := pid;
                title := name; inputOptions := o; state := st; events := ev;
                extensionLocation := loc; iconPath := None;
                webview_group := None |} in
    let m1 := with_nextHandle (S (nextHandle m))
                (with_log (EvCreateInstance c x) m) in
    (x, match c with
        | WebviewEditorInputCtor => m1
        | RevivedWebviewEditorInputCtor =>
            with_unpopulated (unpopulated m1 ++ [handle x]) m1
        end).

(** Parking a continuation on a promise ([await p], [p.then(k)]) and
    scheduling one that is ready. *)
Definition park (p : Promise) (k : Continuation) : M unit :=
  fun m => (tt, with_awaiting (awaiting m ++ [(p, k)]) m).

Definition schedule (k : Continuation) : M unit :=
  fun m => (tt, with_microtasks (microtasks m ++ [k]) m).

(** [Array.prototype.filter] with a callback that calls out. *)
Fixpoint filterM {A : Type} (f : A -> M bool) (l : list A) : M (list A) :=
  match l with
  | [] => ret []
  | x :: rest =>
      b <- f x ;;
      ys <- filterM f rest ;;
      ret (if b then x :: ys else ys)
  end.

Fixpoint forEachM {A : Type} (f : A -> M unit) (l : list A) : M unit :=
  match l with
  | [] => ret tt
  | x :: rest => f x ;;; forEachM f rest
  end.

(** ** The service *)

(** The result of an [async] function at its first suspension. *)
Inductive Async (A : Type) : Type :=
| Now (a : A)
| After (p : Promise) (a : A).
Arguments Now {A} a.
Arguments After {A} p a.

(** [createWebview], source lines 102-113. *)
Definition createWebview (vt : string) (name : string)
    (showOptions : ICreateWebViewShowOptions) (o : WebviewInputOptions)
    (loc : option URI) (ev : WebviewEvents) : M WebviewEditorInput :=
  webviewInput <- createInstance WebviewEditorInputCtor vt None name o
                    emptyObject ev loc ;;
  emit (EvOpenEditor webviewInput
          {| pinned := Some true;
             opt_preserveFocus := preserveFocus showOptions |}
          (Some (group showOptions))) ;;;
  ret webviewInput.

Definition same_group (a : option GroupIdentifier) (b : GroupIdentifier)
  : bool :=
  match a with
  | Some g => Z.eqb g b
  | None => false
  end.

(** [revealWebview], source lines 115-128. *)
Definition revealWebview (webview : WebviewEditorInput)
    (target : IEditorGroup) (preserve : bool) : M unit :=
  if same_group (webview_group webview) (id target) then
    emit (EvOpenEditor webview
            {| pinned := None; opt_preserveFocus := preserve |}
            (option_map TargetId (webview_group webview)))
  else
    groupView <- call_getGroup (webview_group webview) ;;
    match groupView with
    | Some view => emit (EvMoveEditor view webview target preserve)
    | None => ret tt
    end.

(** [tryRevive], source lines 184-194; [values(this._revivers)] is a
    snapshot of the registry in insertion order. *)
Fixpoint tryRevive_over (rs : list WebviewReviver)
    (webview : WebviewEditorInput) : M (Async bool) :=
  match rs with
  | [] => ret (Now false)
  | reviver :: rest =>
      b <- call_canRevive reviver webview ;;
      if b then
        p <- call_reviveWebview reviver webview ;;
        ret (After p true)
      else tryRevive_over rest webview
  end.

Definition tryRevive (webview : WebviewEditorInput) : M (Async bool) :=
  fun m => tryRevive_over (_revivers m) webview m.

(** [canRevive], source lines 173-182. *)
Fixpoint canRevive_over (rs : list WebviewReviver)
    (webview : WebviewEditorInput) : M bool :=
  match rs with
  | [] => ret false
  | reviver :: rest =>
      b <- call_canRevive reviver webview ;;
      if b then ret true else canRevive_over rest webview
  end.

Definition canRevive (webview : WebviewEditorInput) : M bool :=
  fun m => canRevive_over (_revivers m) webview m.

(** The callback handed to [RevivedWebviewEditorInput], source lines
    139-150, up to its [await].  When [tryRevive] itself waits on a
    reviver's promise, the callback is parked on that promise: the two
    jobs the source runs once the promise is fulfilled, [tryRevive]
    returning true at line 190 and the callback going on at line 141, are
    one step here.  What happens is the same; a completion made ready in
    between may come before [EvRevived] in the source and after it
    here. *)
Definition revival_callback (webview : WebviewEditorInput) : M unit :=
  t <- tryRevive webview ;;
  match t with
  | Now didRevive => schedule (ResumeCallback webview didRevive)
  | After p didRevive => park p (ResumeCallback webview didRevive)
  end.

(** The same callback after the [await], lines 141-149. *)
Definition resume_callback (webview : WebviewEditorInput) (didRevive : bool)
  : M unit :=
  if didRevive then emit (EvRevived webview)
  else
    q <- newPromise ;;
    fun m => (tt, with_awaitingRevival
                    (_awaitingRevival m ++ [{| input := webview; resolve := q |}])
                    m).

(** [reviveWebview], source lines 130-153. *)
Definition reviveWebview (vt : string) (pid : Z) (name : string)
    (icon : option IconPath) (st : any) (o : WebviewInputOptions)
    (loc : option URI) : M WebviewEditorInput :=
  webviewInput <- createInstance RevivedWebviewEditorInputCtor vt (Some pid)
                    name o st noEvents loc ;;
  ret (set_iconPath webviewInput icon).

(** The [IDisposable] that [registerReviver] returns. *)
Inductive IDisposable : Type :=
| toDisposable (reviver : WebviewReviver).

(** The body of the loop of lines 164-166. *)
Definition dispatch (reviver : WebviewReviver) (x : PendingRevival) : M unit :=
  p <- call_reviveWebview reviver (input x) ;;
  park p (ThenResolve (resolve x)).

(** Lines 158-162 of [registerReviver]: the registry gains the reviver and
    the queue is filtered twice; the entries to revive are handed on. *)
Definition drain (reviver : WebviewReviver) : M (list PendingRevival) :=
  (fun m => (tt, with_revivers (set_add Nat.eq_dec reviver (_revivers m)) m)) ;;;
  toRevive <- (fun m => filterM (fun x => call_canRevive reviver (input x))
                          (_awaitingRevival m) m) ;;
  keep <- (fun m => filterM (fun x => b <- call_canRevive reviver (input x) ;;
                                      ret (negb b))
                      (_awaitingRevival m) m) ;;
  (fun m => (tt, with_awaitingRevival keep m)) ;;;
  ret toRevive.

(** [registerReviver], source lines 155-171. *)
Definition registerReviver (reviver : WebviewReviver) : M IDisposable :=
  toRevive <- drain reviver ;;
  forEachM (dispatch reviver) toRevive ;;;
  ret (toDisposable reviver).

(** Invoking the handle: [this._revivers.delete(reviver)]. *)
Definition dispose (d : IDisposable) : M unit :=
  match d with
  | toDisposable reviver =>
      fun m => (tt, with_revivers
                      (set_remove Nat.eq_dec reviver (_revivers m)) m)
  end.

(** ** The service in its environment *)

(** Modelled from the spec: [RevivedWebviewEditorInput.resolve] is
    missing.  The panel machinery invokes the deferred-population callback
    of a revived panel when the panel's content is first needed, and not
    again. *)
Definition populate (webview : WebviewEditorInput) : M unit :=
  fun m =>
    if existsb (Nat.eqb (handle webview)) (unpopulated m) then
      revival_callback webview
        (with_unpopulated
           (remove Nat.eq_dec (handle webview) (unpopulated m)) m)
    else (tt, m).

Definition awaits (p : Promise) (pk : Promise * Continuation) : bool :=
  Nat.eqb (fst pk) p.

(** A promise of a collaborator is fulfilled: what was parked on it
    becomes ready, in the order it was parked. *)
Definition fulfil (p : Promise) : M unit :=
  fun m =>
    (tt, with_microtasks
           (microtasks m ++ map snd (filter (awaits p) (awaiting m)))
           (with_awaiting
              (filter (fun pk => negb (awaits p pk)) (awaiting m)) m)).

Definition run_continuation (k : Continuation) : M unit :=
  match k with
  | ResumeCallback webview didRevive => resume_callback webview didRevive
  | ThenResolve q => emit (EvResolve q)
  end.

(** The oldest ready continuation runs. *)
Definition tick : M unit :=
  fun m =>
    match microtasks m with
    | [] => (tt, m)
    | k :: rest => run_continuation k (with_microtasks rest m)
    end.

(** Everything that is ready runs; no continuation of the service makes
    another one ready. *)
Fixpoint ticks (n : nat) : M unit :=
  match n with
  | O => ret tt
  | S n' => tick ;;; ticks n'
  end.

Definition flush : M unit := fun m => ticks (length (microtasks m)) m.

Inductive Action : Type :=
| DoCreateWebview (vt name : string) (showOptions : ICreateWebViewShowOptions)
                  (o : WebviewInputOptions) (loc : option URI)
                  (ev : WebviewEvents)
| DoRevealWebview (webview : WebviewEditorInput) (target : IEditorGroup)
                  (preserve : bool)
| DoReviveWebview (vt : string) (pid : Z) (name : string)
                  (icon : option IconPath) (st : any)
                  (o : WebviewInputOptions) (loc : option URI)
| DoRegisterReviver (reviver : WebviewReviver)
| DoDispose (d : IDisposable)
| DoCanRevive (webview : WebviewEditorInput)
| Populate (webview : WebviewEditorInput)
| Fulfil (p : Promise)
| Tick.

Definition step (a : Action) (m : Machine) : Machine :=
  match a with
  | DoCreateWebview vt name so o loc ev =>
      exec (createWebview vt name so o loc ev) m
  | DoRevealWebview webview target preserve =>
      exec (revealWebview webview target preserve) m
  | DoReviveWebview vt pid name icon st o loc =>
      exec (reviveWebview vt pid name icon st o loc) m
  | DoRegisterReviver reviver => exec (registerReviver reviver) m
  | DoDispose d => exec (dispose d) m
  | DoCanRevive webview => exec (canRevive webview) m
  | Populate webview => exec (populate webview) m
  | Fulfil p => exec (fulfil p) m
  | Tick => exec tick m
  end.

Definition run (acts : list Action) (m : Machine) : Machine :=
  fold_left (fun m a => step a m) acts m.

Definition init (w : World C) : Machine :=
  {| world := w; calls := []; _revivers := []; _awaitingRevival := [];
     awaiting := []; microtasks := []; unpopulated := [];
     nextHandle := 0; nextPromise := 0 |}.

(** ** Observations *)

(** Calls made on collaborators since an earlier machine. *)
Definition calls_since (m m' : Machine) : list Event :=
  skipn (length (calls m)) (calls m').

Definition is_revive_of (reviver : WebviewReviver) (h : nat) (e : Event)
  : bool :=
  match e with
  | EvReviveWebview r x _ => Nat.eqb r reviver && Nat.eqb (handle x) h
  | _ => false
  end.

Definition is_revive (h : nat) (e : Event) : bool :=
  match e with
  | EvReviveWebview _ x _ => Nat.eqb (handle x) h
  | _ => false
  end.

Definition is_move (e : Event) : bool :=
  match e with
  | EvMoveEditor _ _ _ _ => true
  | _ => false
  end.

Definition is_open (e : Event) : bool :=
  match e with
  | EvOpenEditor _ _ _ => true
  | _ => false
  end.

Definition entry_of (h : nat) (e : PendingRevival) : bool :=
  Nat.eqb (handle (input e)) h.

Definition resumes_unrevived (h : nat) (k : Continuation) : bool :=
  match k with
  | ResumeCallback webview false => Nat.eqb (handle webview) h
  | _ => false
  end.

(** How often panel [h] sits in the queue, how often a reconstruction was
    dispatched for it, and how often it is on its way into the queue. *)
Definition queued (m : Machine) (h : nat) : nat :=
  length (filter (entry_of h) (_awaitingRevival m)).

Definition dispatched (m : Machine) (h : nat) : nat :=
  length (filter (is_revive h) (calls m)).

Definition dispatched_to (m : Machine) (reviver : WebviewReviver) (h : nat)
  : nat :=
  length (filter (is_revive_of reviver h) (calls m)).

Definition arriving (m : Machine) (h : nat) : nat :=
  length (filter (resumes_unrevived h)
            (microtasks m ++ map snd (awaiting m))).

Definition dormant (m : Machine) (h : nat) : nat :=
  count_occ Nat.eq_dec (unpopulated m) h.

(** The events and parked continuations of the dispatch loop over [l],
    the first promise being [p]. *)
Fixpoint dispatched_events (reviver : WebviewReviver)
    (l : list PendingRevival) (p : Promise) : list Event :=
  match l with
  | [] => []
  | x :: rest =>
      EvReviveWebview reviver (input x) p :: dispatched_events reviver rest (S p)
  end.

Fixpoint dispatched_parked (l : list PendingRevival) (p : Promise)
  : list (Promise * Continuation) :=
  match l with
  | [] => []
  | x :: rest => (p, ThenResolve (resolve x)) :: dispatched_parked rest (S p)
  end.

Definition probes (reviver : WebviewReviver) (l : list PendingRevival)
  : list Event :=
  map (fun x => EvCanRevive reviver (input x)) l.

End Service.

Arguments Now {A} a.
Arguments After {A} p a.
Arguments world {C} m.
Arguments calls {C} m.
Arguments _revivers {C} m.
Arguments _awaitingRevival {C} m.
Arguments awaiting {C} m.
Arguments microtasks {C} m.
Arguments unpopulated {C} m.
Arguments nextHandle {C} m.
Arguments nextPromise {C} m.
Arguments ret {C A} a.
Arguments bind {C A B} c k.
Arguments exec {C A} c m.
Arguments eval {C A} c m.
Arguments filterM {C A} f l.
Arguments forEachM {C A} f l.
Arguments calls_since {C} m m'.
Arguments queued {C} m h.
Arguments dispatched {C} m h.
Arguments dispatched_to {C} m reviver h.
Arguments arriving {C} m h.
Arguments dormant {C} m h.

(** ** Measures and predicates used in the statements *)

Section Measures.

Variable C : Collaborators.

(** Logging a run of events. *)
Definition log_all (es : list Event) (m : Machine C) : Machine C :=
  fold_left (fun m e => with_log C e m) es m.

(** The callbacks of the two filters of [drain], and the machine once the
    reviver has been added to the registry. *)
Definition first_pass (reviver : WebviewReviver) (x : PendingRevival)
  : M C bool := call_canRevive C reviver (input x).

Definition second_pass (reviver : WebviewReviver) (x : PendingRevival)
  : M C bool :=
  bind (call_canRevive C reviver (input x)) (fun b => ret (negb b)).

Definition registered (reviver : WebviewReviver) (m : Machine C) : Machine C :=
  with_revivers C (set_add Nat.eq_dec reviver (_revivers m)) m.

(** The capability checks of the revivers [rs] on one panel. *)
Definition probe_all (rs : list WebviewReviver) (webview : WebviewEditorInput)
  : list Event :=
  map (fun r => EvCanRevive r webview) rs.

(** Where a revived panel can be before its reconstruction is dispatched:
    not yet asked for, on its way into the queue, or in the queue. *)
Definition weight (m : Machine C) (h : nat) : nat :=
  dormant m h + arriving m h + queued m h.

(** One if [h] is a handle given out between [m] and [m']. *)
Definition fresh (m m' : Machine C) (h : nat) : nat :=
  if (nextHandle m <=? h) && (h <? nextHandle m') then 1 else 0.

(** The capability checks answer by reviver and panel alone. *)
Definition deterministic_checks : Prop :=
  forall r x w w',
    answer_canRevive C w r x = answer_canRevive C w' r x.

(** What one step may do to the account of panel [h]: the log only
    grows; the panel gains weight only by being created; a reconstruction
    is dispatched for it only out of the dormant or the queued state; and,
    when [strict] holds, each dispatch uses up weight. *)
Definition effect (strict : Prop) (m m' : Machine C) (h : nat) : Prop :=
  exists es,
    calls m' = calls m ++ es
    /\ nextHandle m <= nextHandle m'
    /\ weight m' h <= weight m h + fresh m m' h
    /\ length (filter (is_revive h) es) <= dormant m h + queued m h
    /\ (strict ->
        weight m' h + length (filter (is_revive h) es)
        <= weight m h + fresh m m' h).

(** Every panel is accounted for at most once: dormant, arriving, queued
    or dispatched, and only if its handle has been given out. *)
Definition accounted_for (m : Machine C) (h : nat) : Prop :=
  weight m h + dispatched m h <= (if h <? nextHandle m then 1 else 0).

End Measures.

Arguments log_all {C} es m.
Arguments registered {C} reviver m.
Arguments weight {C} m h.
Arguments fresh {C} m m' h.
Arguments effect {C} strict m m' h.
Arguments accounted_for {C} m h.

(** C2, as the specification words it: the view looked up is that of the
    target group; found, the panel is moved; not found, no move is asked
    for. *)
Definition reveal_resolves_target_group : Prop :=
  forall (C : Collaborators) (m : Machine C) (webview : WebviewEditorInput)
         (target : IEditorGroup) (preserve : bool),
    webview_group webview <> Some (id target) ->
    let m' := exec (revealWebview C webview target preserve) m in
    match answer_getGroup C (world m) (Some (id target)) with
    | Some view => In (EvMoveEditor view webview target preserve)
                      (calls_since m m')
    | None => filter is_move (calls_since m m') = []
    end.

(** C1, as the specification words it, for every reviver and every
    queue: each entry a registration takes out of the queue has the
    reviver's reconstruction dispatched for it. *)
Definition registration_dispatches_what_it_removes : Prop :=
  forall (C : Collaborators) (reviver : WebviewReviver) (m : Machine C)
         (e : PendingRevival),
    In e (_awaitingRevival m) ->
    let m' := exec (registerReviver C reviver) m in
    ~ In e (_awaitingRevival m') ->
    exists p, In (EvReviveWebview reviver (input e) p) (calls_since m m').

(** C3, as the specification words it, for every reviver: in no state
    the service can reach has a reconstruction been dispatched more than
    once for a panel. *)
Definition revival_never_dispatched_twice : Prop :=
  forall (C : Collaborators) (w : World C) (acts : list Action) (h : nat),
    dispatched (run C acts (init C w)) h <= 1.

(** * A concrete run *)

Module Scenario.

Import String.StringSyntax.
Local Open Scope string_scope.

(** Revivers claim panels by view type: reviver 0 claims ["other.type"],
    every other reviver claims ["markdown.preview"].  Every group has a
    live view; the world counts the calls made. *)
Definition claimed (r : WebviewReviver) : string :=
  match r with
  | O => "other.type"
  | S _ => "markdown.preview"
  end.

Definition accepts (r : WebviewReviver) (x : WebviewEditorInput) : bool :=
  String.eqb (viewType x) (claimed r).

Definition plugins : Collaborators :=
  {| World := nat;
     answer_canRevive := fun _ r x => accepts r x;
     answer_getGroup := fun _ g => option_map (fun z => {| id := z |}) g;
     react := fun _ w => S w |}.

(** A reviver that changes its mind at every call. *)
Definition fickle : Collaborators :=
  {| World := nat;
     answer_canRevive := fun w _ _ => Nat.even w;
     answer_getGroup := fun _ _ => None;
     react := fun e w => match e with
                         | EvCanRevive _ _ => S w
                         | _ => w
                         end |}.

(** Only group 1 has a live view. *)
Definition one_live_group : Collaborators :=
  {| World := unit;
     answer_canRevive := fun _ _ _ => false;
     answer_getGroup := fun _ g => match g with
                                   | Some 1%Z => Some {| id := 1%Z |}
                                   | _ => None
                                   end;
     react := fun _ w => w |}.

Definition noOptions : WebviewInputOptions :=
  {| enableCommandUris := None; enableFindWidget := None;
     enableScripts := None; retainContextWhenHidden := None;
     tryRestoreScrollPosition := None; localResourceRoots := None |}.

Definition restore : Action :=
  DoReviveWebview "markdown.preview" 7%Z "Preview" None (opaque "{}")
    noOptions None.

(** The panel that [restore] builds on a new service. *)
Definition preview : WebviewEditorInput :=
  {| handle := 0; viewType := "markdown.preview"; persistedId := Some 7%Z;
     title := "Preview"; inputOptions := noOptions; state := opaque "{}";
     events := noEvents; extensionLocation := None; iconPath := None;
     webview_group := None |}.

(** The service after the panel was restored, its content asked for with
    no reviver registered, and the callback run to its end. *)
Definition parked (C : Collaborators) (w : World C) : Machine C :=
  run C [restore; Populate preview; Tick] (init C w).

(** A panel shown in group 1, and group 2 as a target. *)
Definition shown : WebviewEditorInput :=
  {| handle := 0; viewType := "markdown.preview"; persistedId := None;
     title := "Preview"; inputOptions := noOptions; state := emptyObject;
     events := noEvents; extensionLocation := None; iconPath := None;
     webview_group := Some 1%Z |}.

Definition group1 : IEditorGroup := {| id := 1%Z |}.
Definition group2 : IEditorGroup := {| id := 2%Z |}.

(** The service with the panel parked in the queue, and a service with
    revivers 0 and 1 registered. *)
Definition parked_preview : Machine plugins := parked plugins 0.

Definition two_revivers : Machine plugins :=
  run plugins [DoRegisterReviver 0; DoRegisterReviver 1] (init plugins 0).

End Scenario.

(** * The rest of the file: options, and measures for its invariants *)

(** ** [areWebviewInputOptionsEqual], source lines 81-88 *)

(** [===] on a member of type [boolean | undefined]. *)
Definition strictEq (a b : option bool) : bool :=
  match a, b with
  | None, None => true
  | Some x, Some y => Bool.eqb x y
  | _, _ => false
  end.

Definition isArray {A : Type} (v : option (list A)) : bool :=
  match v with
  | Some _ => true
  | None => false
  end.

Definition arrayOf {A : Type} (v : option (list A)) : list A :=
  match v with
  | Some l => l
  | None => []
  end.

(** [a.localResourceRoots === b.localResourceRoots].  Both undefined are
    identical; an array and undefined are not; of two arrays, [same] says
    whether they are one and the same object, which their contents do not
    tell. *)
Definition roots_identical (same : bool) (a b : WebviewInputOptions) : bool :=
  match localResourceRoots a, localResourceRoots b with
  | None, None => true
  | Some _, Some _ => same
  | _, _ => false
  end.

(** The comparison of line 87 hands two arrays to [equals] of
    [vs/base/common/arrays], which is not part of this file: it is the
    parameter [equals].  A [URI] stands for its [toString()], so the item
    comparison [(a, b) => a.toString() === b.toString()] is [String.eqb].
    [&&] and [||] evaluate left to right and stop early, as [andb] and
    [orb] do. *)
Definition areWebviewInputOptionsEqual
    (equals : list URI -> list URI -> (URI -> URI -> bool) -> bool)
    (same : bool) (a b : WebviewInputOptions) : bool :=
  strictEq (enableCommandUris a) (enableCommandUris b)
  && strictEq (enableFindWidget a) (enableFindWidget b)
  && strictEq (enableScripts a) (enableScripts b)
  && strictEq (retainContextWhenHidden a) (retainContextWhenHidden b)
  && strictEq (tryRestoreScrollPosition a) (tryRestoreScrollPosition b)
  && (roots_identical same a b
      || (isArray (localResourceRoots a)
          && isArray (localResourceRoots b)
          && equals (arrayOf (localResourceRoots a))
               (arrayOf (localResourceRoots b)) String.eqb)).

(** The five flags of two option sets agree. *)
Definition flags_agree (a b : WebviewInputOptions) : Prop :=
  enableCommandUris a = enableCommandUris b
  /\ enableFindWidget a = enableFindWidget b
  /\ enableScripts a = enableScripts b
  /\ retainContextWhenHidden a = retainContextWhenHidden b
  /\ tryRestoreScrollPosition a = tryRestoreScrollPosition b.

(** An instance of [equals] for the examples: arrays of the same length
    whose items compare equal position by position. *)
Fixpoint pairwise (la lb : list URI) (itemEquals : URI -> URI -> bool)
  : bool :=
  match la, lb with
  | [], [] => true
  | x :: la', y :: lb' => itemEquals x y && pairwise la' lb' itemEquals
  | _, _ => false
  end.

(** ** Measures for the invariants *)

(** [l] is [l'] with some elements left out, the others in their order. *)
Inductive subseq {A : Type} : list A -> list A -> Prop :=
| subseq_nil : subseq [] []
| subseq_skip (x : A) (l l' : list A) : subseq l l' -> subseq l (x :: l')
| subseq_take (x : A) (l l' : list A) :
    subseq l l' -> subseq (x :: l) (x :: l').

Definition is_fulfil (a : Action) : bool :=
  match a with
  | Fulfil _ => true
  | _ => false
  end.

(** The events by which the service tells a waiting caller that a panel
    has been revived. *)
Definition is_completion (e : Event) : bool :=
  match e with
  | EvResolve _ => true
  | EvRevived _ => true
  | _ => false
  end.

Definition is_reconstruction (e : Event) : bool :=
  match e with
  | EvReviveWebview _ _ _ => true
  | _ => false
  end.

(** A call on reviver [r]: its capability check or its reconstruction. *)
Definition calls_on (r : WebviewReviver) (e : Event) : bool :=
  match e with
  | EvCanRevive r' _ => Nat.eqb r' r
  | EvReviveWebview r' _ _ => Nat.eqb r' r
  | _ => false
  end.

Definition is_registration_of (r : WebviewReviver) (a : Action) : bool :=
  match a with
  | DoRegisterReviver r' => Nat.eqb r' r
  | _ => false
  end.

Definition resumes_unrevived_any (k : Continuation) : bool :=
  match k with
  | ResumeCallback _ false => true
  | _ => false
  end.

Definition is_resolve (q : Promise) (e : Event) : bool :=
  match e with
  | EvResolve q' => Nat.eqb q' q
  | _ => false
  end.

Definition resolves (q : Promise) (k : Continuation) : bool :=
  match k with
  | ThenResolve q' => Nat.eqb q' q
  | _ => false
  end.

Definition signalled_by (q : Promise) (e : PendingRevival) : bool :=
  Nat.eqb (resolve e) q.

Section Signals.

Variable C : Collaborators.

(** How often promise [q] is the signal of a queued entry, how often its
    resolution is parked or ready to run, and how often it has been
    resolved. *)
Definition signal_queued (m : Machine C) (q : Promise) : nat :=
  length (filter (signalled_by q) (_awaitingRevival m)).

Definition signal_pending (m : Machine C) (q : Promise) : nat :=
  length (filter (resolves q) (microtasks m ++ map snd (awaiting m))).

Definition signal_resolved (m : Machine C) (q : Promise) : nat :=
  length (filter (is_resolve q) (calls m)).

Definition signal_weight (m : Machine C) (q : Promise) : nat :=
  signal_queued m q + signal_pending m q + signal_resolved m q.

(** A promise is the signal of at most one thing, and only once it has
    been made. *)
Definition signal_accounted (m : Machine C) (q : Promise) : Prop :=
  signal_weight m q <= (if q <? nextPromise m then 1 else 0).

End Signals.

Arguments signal_queued {C} m q.
Arguments signal_pending {C} m q.
Arguments signal_resolved {C} m q.
Arguments signal_weight {C} m q.
Arguments signal_accounted {C} m q.

(** ** More concrete machines *)

(** The service with reviver 0 registered and the preview panel restored
    but its content not yet asked for; the same with revivers 0 and 1. *)
Definition restored_beside_other : Machine Scenario.plugins :=
  run Scenario.plugins [DoRegisterReviver 0; Scenario.restore]
    (init Scenario.plugins 0).


(** A run in which a reconstruction is dispatched and its promise never
    fulfilled. *)
Definition unanswered_run : list Action :=
  [Scenario.restore; Populate Scenario.preview; Tick; DoRegisterReviver 1;
   Tick; DoCanRevive Scenario.preview].

(** A run through to the resolution of the entry's promise. *)
Definition answered_run : list Action :=
  [Scenario.restore; Populate Scenario.preview; Tick; DoRegisterReviver 1;
   Fulfil 1; Tick; DoRegisterReviver 2].

(** * Facts about the embedding *)

Section Facts.

Variable C : Collaborators.

Lemma log_all_cons e es (m : Machine C) :
  log_all (e :: es) m = log_all es (with_log C e m).
Proof. reflexivity. Qed.

Lemma log_all_calls es : forall m : Machine C,
  calls (log_all es m) = calls m ++ es.
Proof.
  induction es as [|e es IH]; intros m.
  - simpl. now rewrite app_nil_r.
  - rewrite log_all_cons, IH. simpl. now rewrite <- app_assoc.
Qed.

Lemma log_all_frame es : forall m : Machine C,
  _revivers (log_all es m) = _revivers m
  /\ _awaitingRevival (log_all es m) = _awaitingRevival m
  /\ awaiting (log_all es m) = awaiting m
  /\ microtasks (log_all es m) = microtasks m
  /\ unpopulated (log_all es m) = unpopulated m
  /\ nextHandle (log_all es m) = nextHandle m
  /\ nextPromise (log_all es m) = nextPromise m.
Proof.
  induction es as [|e es IH]; intros m.
  - repeat split.
  - rewrite log_all_cons. exact (IH (with_log C e m)).
Qed.

Lemma log_all_app es1 es2 (m : Machine C) :
  log_all (es1 ++ es2) m = log_all es2 (log_all es1 m).
Proof. unfold log_all. now rewrite fold_left_app. Qed.

(** A filter whose callback is a logged query leaves the machine as the
    log of its queries leaves it. *)
Lemma filterM_exec {A : Type} (f : A -> M C bool) (ev : A -> Event) :
  (forall x m, snd (f x m) = with_log C (ev x) m) ->
  forall l m, snd (filterM f l m) = log_all (map ev l) m.
Proof.
  intros Hf l. induction l as [|x l IH]; intros m; simpl.
  - reflexivity.
  - unfold bind. specialize (Hf x m). destruct (f x m) as [b m1].
    simpl in Hf. subst m1. specialize (IH (with_log C (ev x) m)).
    destruct (filterM f l (with_log C (ev x) m)) as [ys m2].
    simpl in *. exact IH.
Qed.

(** When the callback answers by a fixed predicate, the filter is the
    list filter. *)
Lemma filterM_eval {A : Type} (f : A -> M C bool) (pred : A -> bool) :
  forall l, (forall x m, In x l -> fst (f x m) = pred x) ->
  forall m, fst (filterM f l m) = filter pred l.
Proof.
  induction l as [|x l IH]; intros Hf m; simpl.
  - reflexivity.
  - unfold bind. pose proof (Hf x m (or_introl eq_refl)) as Hx.
    destruct (f x m) as [b m1]. simpl in Hx. subst b.
    assert (Hl : forall y m', In y l -> fst (f y m') = pred y)
      by (intros; apply Hf; now right).
    specialize (IH Hl m1). destruct (filterM f l m1) as [ys m2].
    simpl in *. subst ys. reflexivity.
Qed.

(** Whatever the callback answers elsewhere, on the elements picked out by
    [sel] a constant answer decides what the filter keeps of them. *)
Lemma filterM_select {A : Type} (f : A -> M C bool) (sel : A -> bool)
    (b : bool) :
  forall l, (forall x m, In x l -> sel x = true -> fst (f x m) = b) ->
  forall m, filter sel (fst (filterM f l m))
            = if b then filter sel l else [].
Proof.
  induction l as [|x l IH]; intros Hf m; simpl.
  - now destruct b.
  - unfold bind. pose proof (Hf x m (or_introl eq_refl)) as Hx.
    destruct (f x m) as [bx m1]. simpl in Hx.
    assert (Hl : forall y m', In y l -> sel y = true -> fst (f y m') = b)
      by (intros; apply Hf; auto; now right).
    specialize (IH Hl m1). destruct (filterM f l m1) as [ys m2].
    simpl in *. destruct (sel x) eqn:Hs.
    + rewrite (Hx eq_refl). destruct b; simpl; rewrite ?Hs; now rewrite IH.
    + destruct bx; simpl; rewrite ?Hs; exact IH.
Qed.

(** The filter never keeps more than it was given. *)
Lemma filterM_shrinks {A : Type} (f : A -> M C bool) (sel : A -> bool) :
  forall l m, length (filter sel (fst (filterM f l m)))
              <= length (filter sel l).
Proof.
  induction l as [|x l IH]; intros m; simpl.
  - lia.
  - unfold bind. destruct (f x m) as [bx m1]. specialize (IH m1).
    destruct (filterM f l m1) as [ys m2]. simpl in *.
    destruct bx; simpl; destruct (sel x); simpl; lia.
Qed.

Lemma forEachM_cons {A : Type} (f : A -> M C unit) x l m :
  exec (forEachM f (x :: l)) m = exec (forEachM f l) (exec (f x) m).
Proof.
  unfold exec. simpl. unfold bind. now destruct (f x m).
Qed.

(** The dispatch loop: one [reviveWebview] per entry, in order, each with
    its [then] parked; the registry and the queue are not touched. *)
Lemma dispatch_loop reviver : forall l m,
  let m' := exec (forEachM (dispatch C reviver) l) m in
  calls m' = calls m ++ dispatched_events reviver l (nextPromise m)
  /\ awaiting m' = awaiting m ++ dispatched_parked l (nextPromise m)
  /\ nextPromise m' = nextPromise m + length l
  /\ _revivers m' = _revivers m
  /\ _awaitingRevival m' = _awaitingRevival m
  /\ microtasks m' = microtasks m
  /\ unpopulated m' = unpopulated m
  /\ nextHandle m' = nextHandle m.
Proof.
  induction l as [|x l IH]; intros m; cbv zeta.
  - unfold exec; simpl. rewrite !app_nil_r. repeat split; lia.
  - rewrite forEachM_cons.
    specialize (IH (exec (dispatch C reviver x) m)). cbv zeta in IH.
    destruct IH as (Hc & Ha & Hp & Hr & Hq & Hm & Hu & Hh).
    rewrite Hc, Ha, Hp, Hr, Hq, Hm, Hu, Hh.
    unfold exec, dispatch, bind, call_reviveWebview, park. simpl.
    rewrite <- !app_assoc. simpl. repeat split; lia.
Qed.

(** [drain] unfolded: the machine after it, and what it hands on. *)
Lemma drain_eval reviver m :
  fst (drain C reviver m)
  = fst (filterM (first_pass C reviver) (_awaitingRevival m)
           (registered reviver m)).
Proof.
  unfold drain.
  change (fun x => call_canRevive C reviver (input x))
    with (first_pass C reviver).
  change (fun x => bind (call_canRevive C reviver (input x))
                     (fun b => ret (negb b)))
    with (second_pass C reviver).
  unfold bind. fold (registered reviver m).
  change (_awaitingRevival (registered reviver m)) with (_awaitingRevival m).
  destruct (filterM (first_pass C reviver) (_awaitingRevival m) _) as [t m1].
  destruct (filterM (second_pass C reviver) (_awaitingRevival m1) m1).
  reflexivity.
Qed.

Lemma first_pass_logs reviver x m :
  snd (first_pass C reviver x m) = with_log C (EvCanRevive reviver (input x)) m.
Proof. reflexivity. Qed.

Lemma second_pass_logs reviver x m :
  snd (second_pass C reviver x m) = with_log C (EvCanRevive reviver (input x)) m.
Proof. reflexivity. Qed.

Lemma drain_exec reviver m :
  let q := _awaitingRevival m in
  let m1 := log_all (probes reviver q) (registered reviver m) in
  snd (drain C reviver m)
  = with_awaitingRevival C
      (fst (filterM (second_pass C reviver) q m1))
      (log_all (probes reviver q) m1).
Proof.
  cbv zeta. unfold drain.
  change (fun x => call_canRevive C reviver (input x))
    with (first_pass C reviver).
  change (fun x => bind (call_canRevive C reviver (input x))
                     (fun b => ret (negb b)))
    with (second_pass C reviver).
  unfold bind, probes. fold (registered reviver m).
  change (_awaitingRevival (registered reviver m)) with (_awaitingRevival m).
  pose proof (filterM_exec (first_pass C reviver)
                (fun x => EvCanRevive reviver (input x))
                (first_pass_logs reviver) (_awaitingRevival m)
                (registered reviver m)) as H1.
  destruct (filterM (first_pass C reviver) (_awaitingRevival m) _) as [t m1].
  simpl in H1. subst m1.
  assert (Hq : _awaitingRevival
                 (log_all (map (fun x => EvCanRevive reviver (input x))
                             (_awaitingRevival m)) (registered reviver m))
               = _awaitingRevival m).
  { destruct (log_all_frame
                (map (fun x => EvCanRevive reviver (input x))
                   (_awaitingRevival m)) (registered reviver m))
      as (_ & H & _). exact H. }
  rewrite Hq.
  pose proof (filterM_exec (second_pass C reviver)
                (fun x => EvCanRevive reviver (input x))
                (second_pass_logs reviver) (_awaitingRevival m)
                (log_all (map (fun x => EvCanRevive reviver (input x))
                            (_awaitingRevival m)) (registered reviver m)))
    as H2.
  destruct (filterM (second_pass C reviver) (_awaitingRevival m) _) as [k m2].
  simpl in H2. subst m2. reflexivity.
Qed.

(** [registerReviver] is [drain] followed by the dispatch loop. *)
Lemma registerReviver_exec reviver m :
  exec (registerReviver C reviver) m
  = exec (forEachM (dispatch C reviver) (fst (drain C reviver m)))
      (snd (drain C reviver m)).
Proof.
  unfold exec, registerReviver, bind.
  destruct (drain C reviver m) as [t m1]. simpl.
  destruct (forEachM (dispatch C reviver) t m1). reflexivity.
Qed.

(** The fields of the machine after [drain]. *)
Lemma drain_fields reviver m :
  let m1 := snd (drain C reviver m) in
  let q := _awaitingRevival m in
  calls m1 = calls m ++ probes reviver q ++ probes reviver q
  /\ _revivers m1 = set_add Nat.eq_dec reviver (_revivers m)
  /\ awaiting m1 = awaiting m
  /\ microtasks m1 = microtasks m
  /\ unpopulated m1 = unpopulated m
  /\ nextHandle m1 = nextHandle m
  /\ nextPromise m1 = nextPromise m.
Proof.
  cbv zeta. rewrite drain_exec. cbv zeta. simpl.
  rewrite !log_all_calls.
  pose proof (log_all_frame (probes reviver (_awaitingRevival m))
                (registered reviver m)) as (R1 & Q1 & A1 & T1 & U1 & H1 & P1).
  pose proof (log_all_frame (probes reviver (_awaitingRevival m))
                (log_all (probes reviver (_awaitingRevival m))
                   (registered reviver m)))
    as (R2 & Q2 & A2 & T2 & U2 & H2 & P2).
  rewrite R2, A2, T2, U2, H2, P2, R1, A1, T1, U1, H1, P1. simpl.
  rewrite <- app_assoc. repeat split.
Qed.

(** The fields of the machine after [registerReviver]. *)
Lemma registerReviver_fields reviver m :
  let m' := exec (registerReviver C reviver) m in
  let q := _awaitingRevival m in
  let toRevive := fst (drain C reviver m) in
  calls m' = calls m ++ probes reviver q ++ probes reviver q
               ++ dispatched_events reviver toRevive (nextPromise m)
  /\ _revivers m' = set_add Nat.eq_dec reviver (_revivers m)
  /\ _awaitingRevival m' = _awaitingRevival (snd (drain C reviver m))
  /\ awaiting m' = awaiting m ++ dispatched_parked toRevive (nextPromise m)
  /\ microtasks m' = microtasks m
  /\ unpopulated m' = unpopulated m
  /\ nextHandle m' = nextHandle m
  /\ nextPromise m' = nextPromise m + length toRevive.
Proof.
  cbv zeta. rewrite registerReviver_exec.
  pose proof (dispatch_loop reviver (fst (drain C reviver m))
                (snd (drain C reviver m))) as H. cbv zeta in H.
  destruct H as (Hc & Ha & Hp & Hr & Hq & Hm & Hu & Hh).
  pose proof (drain_fields reviver m) as D. cbv zeta in D.
  destruct D as (Dc & Dr & Da & Dm & Du & Dh & Dp).
  rewrite Hc, Ha, Hp, Hr, Hq, Hm, Hu, Hh, Dc, Dr, Da, Dm, Du, Dh, Dp.
  rewrite <- !app_assoc. repeat split.
Qed.

(** With a capability check that is a function of the panel, the two
    passes are the two halves of a partition of the queue. *)
Lemma drain_deterministic reviver m (f : WebviewEditorInput -> bool) :
  (forall w e, In e (_awaitingRevival m) ->
     answer_canRevive C w reviver (input e) = f (input e)) ->
  fst (drain C reviver m)
  = filter (fun e => f (input e)) (_awaitingRevival m)
  /\ _awaitingRevival (snd (drain C reviver m))
     = filter (fun e => negb (f (input e))) (_awaitingRevival m).
Proof.
  intros Hdet. split.
  - rewrite drain_eval. apply filterM_eval. intros x m0 Hx.
    unfold first_pass, call_canRevive. simpl. now apply Hdet.
  - pose proof (drain_exec reviver m) as H. cbv zeta in H. rewrite H.
    simpl. apply filterM_eval. intros x m0 Hx.
    unfold second_pass, bind, call_canRevive. simpl. f_equal.
    now apply Hdet.
Qed.

Lemma skipn_length_app {A : Type} (l es : list A) :
  skipn (length l) (l ++ es) = es.
Proof. induction l; simpl; auto. Qed.

Lemma filter_none_keeps_all {A : Type} (f : A -> bool) (l : list A) :
  filter f l = [] -> filter (fun x => negb (f x)) l = l.
Proof.
  induction l as [|x l IH]; simpl; intros H; auto.
  destruct (f x); simpl; [discriminate | now rewrite IH].
Qed.

(** ** Continuations *)

Lemma run_continuation_frame k m :
  microtasks (exec (run_continuation C k) m) = microtasks m
  /\ awaiting (exec (run_continuation C k) m) = awaiting m
  /\ _revivers (exec (run_continuation C k) m) = _revivers m
  /\ unpopulated (exec (run_continuation C k) m) = unpopulated m
  /\ nextHandle (exec (run_continuation C k) m) = nextHandle m.
Proof.
  destruct k as [x [|]|q]; unfold exec; simpl; repeat split.
Qed.

Lemma run_continuation_calls k m :
  calls (exec (run_continuation C k) m)
  = calls m ++ match k with
               | ResumeCallback x true => [EvRevived x]
               | ResumeCallback x false => []
               | ThenResolve q => [EvResolve q]
               end.
Proof.
  destruct k as [x [|]|q]; unfold exec; simpl; auto using app_nil_r.
Qed.

Lemma tick_exec m :
  exec (tick C) m
  = match microtasks m with
    | [] => m
    | k :: rest => exec (run_continuation C k) (with_microtasks C rest m)
    end.
Proof. unfold exec, tick. now destruct (microtasks m). Qed.

Lemma ticks_succ n m :
  exec (ticks C (S n)) m = exec (ticks C n) (exec (tick C) m).
Proof. unfold exec. simpl. unfold bind. now destruct (tick C m). Qed.

(** Running [n] ready continuations logs the resolution of every
    [then] among the first [n]. *)
Lemma ticks_resolve q : forall n m,
  exists es, calls (exec (ticks C n) m) = calls m ++ es
             /\ (In (ThenResolve q) (firstn n (microtasks m)) ->
                 In (EvResolve q) es).
Proof.
  induction n as [|n IH]; intros m.
  - exists []. unfold exec; simpl. rewrite app_nil_r. split; tauto.
  - rewrite ticks_succ, tick_exec.
    destruct (microtasks m) as [|k rest] eqn:Hm; simpl.
    + destruct (IH m) as (es & Hc & _). exists es. split; [exact Hc|].
      tauto.
    + set (m1 := exec (run_continuation C k) (with_microtasks C rest m)).
      destruct (IH m1) as (es & Hc & Hin).
      pose proof (run_continuation_calls k (with_microtasks C rest m)) as Hk.
      pose proof (run_continuation_frame k (with_microtasks C rest m))
        as (Hmt & _).
      fold m1 in Hk, Hmt. simpl in Hk, Hmt.
      eexists. split.
      * rewrite Hc, Hk, <- app_assoc. reflexivity.
      * intros [Hq | Hq].
        -- subst k. apply in_or_app. left. now left.
        -- apply in_or_app. right. apply Hin. now rewrite Hmt.
Qed.

(** Once the promise is fulfilled and the ready continuations have run,
    what was parked on it as [then] has resolved its entry. *)
Lemma fulfil_then_resolves p q m :
  In (p, ThenResolve q) (awaiting m) ->
  In (EvResolve q)
     (calls_since m (exec (bind (fulfil C p) (fun _ => flush C)) m)).
Proof.
  intros Hin. set (m1 := exec (fulfil C p) m).
  change (exec (bind (fulfil C p) (fun _ => flush C)) m)
    with (exec (ticks C (length (microtasks m1))) m1).
  destruct (ticks_resolve q (length (microtasks m1)) m1) as (es & Hc & Hes).
  unfold calls_since. rewrite Hc.
  change (calls m1) with (calls m). rewrite skipn_length_app.
  apply Hes. rewrite firstn_all. subst m1. unfold exec, fulfil. simpl.
  apply in_or_app. right.
  change (ThenResolve q) with (snd (p, ThenResolve q)).
  apply in_map. apply filter_In. split; [exact Hin|].
  unfold awaits. simpl. apply Nat.eqb_refl.
Qed.

Lemma dispatched_nth reviver : forall l p i e,
  nth_error l i = Some e ->
  In (EvReviveWebview reviver (input e) (p + i)) (dispatched_events reviver l p)
  /\ In (p + i, ThenResolve (resolve e)) (dispatched_parked l p).
Proof.
  induction l as [|x l IH]; intros p i e H.
  - destruct i; discriminate.
  - destruct i as [|i]; simpl in *.
    + injection H as ->. rewrite Nat.add_0_r. split; now left.
    + destruct (IH (S p) i e H) as [H1 H2].
      replace (p + S i) with (S p + i) by lia. split; now right.
Qed.

Lemma probes_no_resolve reviver l q : ~ In (EvResolve q) (probes reviver l).
Proof.
  unfold probes. intros H. apply in_map_iff in H.
  destruct H as (x & Hx & _). discriminate.
Qed.

Lemma dispatched_events_no_resolve reviver q : forall l p,
  ~ In (EvResolve q) (dispatched_events reviver l p).
Proof.
  induction l as [|x l IH]; intros p; simpl; [tauto|].
  intros [H|H]; [discriminate | exact (IH _ H)].
Qed.

End Facts.

(** * The revival queue on registration *)

Section Registration.

Variable C : Collaborators.

(** C1, as the code has it.  Registering a reviver whose capability check
    is a function of the panel takes out of the revival queue exactly the entries it accepts
    and leaves the others in their order; the calls it makes are the two
    passes of checks followed by one reconstruction per accepted entry, in
    queue order; the completion signal of an accepted entry is resolved
    when that reconstruction's promise is fulfilled and not before; with
    no accepted entry the queue is what it was. *)
Theorem registerReviver_drains_matching
    (reviver : WebviewReviver) (m : Machine C)
    (f : WebviewEditorInput -> bool)
    (Hdet : forall w e, In e (_awaitingRevival m) ->
              answer_canRevive C w reviver (input e) = f (input e)) :
  let m' := exec (registerReviver C reviver) m in
  let q := _awaitingRevival m in
  let matched := filter (fun e => f (input e)) q in
  _awaitingRevival m' = filter (fun e => negb (f (input e))) q
  /\ calls_since m m'
     = probes reviver q ++ probes reviver q
       ++ dispatched_events reviver matched (nextPromise m)
  /\ awaiting m' = awaiting m ++ dispatched_parked matched (nextPromise m)
  /\ (forall i e, nth_error matched i = Some e ->
        In (EvReviveWebview reviver (input e) (nextPromise m + i))
           (calls_since m m')
        /\ ~ In (EvResolve (resolve e)) (calls_since m m')
        /\ In (EvResolve (resolve e))
             (calls_since m'
                (exec (bind (fulfil C (nextPromise m + i))
                         (fun _ => flush C)) m')))
  /\ (matched = [] -> _awaitingRevival m' = q).
Proof.
  cbv zeta.
  pose proof (registerReviver_fields C reviver m) as F. cbv zeta in F.
  destruct F as (Fc & _ & Fq & Fa & _).
  destruct (drain_deterministic C reviver m f Hdet) as [Dt Dk].
  rewrite Dt in Fc, Fa. rewrite Dk in Fq.
  assert (Hsince : calls_since m (exec (registerReviver C reviver) m)
                   = probes reviver (_awaitingRevival m)
                     ++ probes reviver (_awaitingRevival m)
                     ++ dispatched_events reviver
                          (filter (fun e => f (input e)) (_awaitingRevival m))
                          (nextPromise m)).
  { unfold calls_since. rewrite Fc. apply skipn_length_app. }
  split; [exact Fq|]. split; [exact Hsince|]. split; [exact Fa|]. split.
  - intros i e Hnth.
    destruct (dispatched_nth reviver _ (nextPromise m) i e Hnth) as [He Hp].
    split; [|split].
    + rewrite Hsince. apply in_or_app. right. apply in_or_app. now right.
    + rewrite Hsince. intros H.
      apply in_app_or in H. destruct H as [H|H];
        [exact (probes_no_resolve _ _ _ H)|].
      apply in_app_or in H. destruct H as [H|H];
        [exact (probes_no_resolve _ _ _ H)|].
      exact (dispatched_events_no_resolve _ _ _ _ H).
    + apply fulfil_then_resolves. rewrite Fa. apply in_or_app. now right.
  - intros Hnone. rewrite Fq. now apply filter_none_keeps_all.
Qed.

End Registration.

(** * Queries on the registry *)

Section Queries.

Variable C : Collaborators.

(** Up to a reviver that accepts, every reviver is asked and refuses. *)
Lemma canRevive_over_refused webview f : forall pre rest m,
  (forall r w, In r pre -> answer_canRevive C w r webview = f r) ->
  (forall r, In r pre -> f r = false) ->
  canRevive_over C (pre ++ rest) webview m
  = canRevive_over C rest webview (log_all (probe_all pre webview) m).
Proof.
  induction pre as [|r pre IH]; intros rest m Hdet Hno; simpl.
  - reflexivity.
  - unfold bind, call_canRevive. simpl.
    rewrite (Hdet r (world m) (or_introl eq_refl)).
    rewrite (Hno r (or_introl eq_refl)).
    apply IH; intros; [apply Hdet | apply Hno]; now right.
Qed.

Lemma tryRevive_over_refused webview f : forall pre rest m,
  (forall r w, In r pre -> answer_canRevive C w r webview = f r) ->
  (forall r, In r pre -> f r = false) ->
  tryRevive_over C (pre ++ rest) webview m
  = tryRevive_over C rest webview (log_all (probe_all pre webview) m).
Proof.
  induction pre as [|r pre IH]; intros rest m Hdet Hno; simpl.
  - reflexivity.
  - unfold bind, call_canRevive. simpl.
    rewrite (Hdet r (world m) (or_introl eq_refl)).
    rewrite (Hno r (or_introl eq_refl)).
    apply IH; intros; [apply Hdet | apply Hno]; now right.
Qed.

Lemma first_accepting (f : WebviewReviver -> bool) : forall rs,
  existsb f rs = true ->
  exists pre r post, rs = pre ++ r :: post
                     /\ (forall r', In r' pre -> f r' = false)
                     /\ f r = true.
Proof.
  induction rs as [|r rs IH]; simpl; intros H; [discriminate|].
  destruct (f r) eqn:Hr.
  - exists [], r, rs. repeat split; auto. intros r' [].
  - destruct (IH H) as (pre & r0 & post & -> & Hpre & Hr0).
    exists (r :: pre), r0, post. repeat split; auto.
    intros r' [<-|Hin]; auto.
Qed.

(** C4.  When the capability checks of the registered revivers are
    functions of the panel, [canRevive] answers true exactly if one of
    them accepts the panel; it answers false on an empty registry; it
    changes neither the registry nor the revival queue, parks nothing and
    schedules nothing. *)
Theorem canRevive_iff_some_reviver_accepts
    (m : Machine C) (webview : WebviewEditorInput)
    (f : WebviewReviver -> bool)
    (Hdet : forall r w, In r (_revivers m) ->
              answer_canRevive C w r webview = f r) :
  let m' := exec (canRevive C webview) m in
  (eval (canRevive C webview) m = true
   <-> exists r, In r (_revivers m) /\ f r = true)
  /\ (_revivers m = [] -> eval (canRevive C webview) m = false)
  /\ _revivers m' = _revivers m
  /\ _awaitingRevival m' = _awaitingRevival m
  /\ awaiting m' = awaiting m
  /\ microtasks m' = microtasks m.
Proof.
  cbv zeta. unfold eval, exec, canRevive.
  assert (Hres : canRevive_over C (_revivers m) webview m
                 = (existsb f (_revivers m),
                    snd (canRevive_over C (_revivers m) webview m))
               /\ exists es,
                    snd (canRevive_over C (_revivers m) webview m)
                    = log_all es m).
  { destruct (existsb f (_revivers m)) eqn:Hex.
    - destruct (first_accepting f _ Hex) as (pre & r & post & E & Hpre & Hr).
      rewrite E in *.
      rewrite (canRevive_over_refused webview f pre (r :: post) m);
        [| intros; apply Hdet; apply in_or_app; now left | exact Hpre].
      simpl. unfold bind, call_canRevive. simpl.
      rewrite (Hdet r _ (in_elt r pre post)).
      rewrite Hr. simpl. split; [reflexivity|].
      exists (probe_all pre webview ++ [EvCanRevive r webview]).
      now rewrite log_all_app.
    - pose proof (canRevive_over_refused webview f (_revivers m) [] m) as H.
      rewrite app_nil_r in H. rewrite H.
      + simpl. split; [reflexivity|]. now eexists.
      + exact Hdet.
      + intros r Hin. destruct (f r) eqn:Hr; auto.
        assert (existsb f (_revivers m) = true)
          by (apply existsb_exists; eauto).
        congruence. }
  destruct Hres as [Hres [es Hes]]. rewrite Hres. simpl.
  rewrite Hes.
  destruct (log_all_frame C es m) as (R & Q & A & T & _).
  split; [apply existsb_exists|].
  split; [intros E; rewrite E; reflexivity|]. auto.
Qed.

(** C5.  When the capability checks of the registered revivers are
    functions of the panel, [tryRevive] asks them in insertion order.  At
    the first that accepts it calls that reviver's reconstruction, waits
    on its promise and then yields success, having asked no later reviver;
    if none accepts it yields failure at once.  In both cases the registry
    and the revival queue stay as they were. *)
Theorem tryRevive_first_match_wins
    (m : Machine C) (webview : WebviewEditorInput)
    (f : WebviewReviver -> bool)
    (Hdet : forall r w, In r (_revivers m) ->
              answer_canRevive C w r webview = f r) :
  let m' := exec (tryRevive C webview) m in
  (forall pre r post,
     _revivers m = pre ++ r :: post ->
     (forall r', In r' pre -> f r' = false) -> f r = true ->
     eval (tryRevive C webview) m = After (nextPromise m) true
     /\ calls_since m m'
        = probe_all pre webview
          ++ [EvCanRevive r webview;
              EvReviveWebview r webview (nextPromise m)])
  /\ ((forall r, In r (_revivers m) -> f r = false) ->
      eval (tryRevive C webview) m = Now false
      /\ calls_since m m' = probe_all (_revivers m) webview)
  /\ _revivers m' = _revivers m
  /\ _awaitingRevival m' = _awaitingRevival m.
Proof.
  cbv zeta. unfold eval, exec, tryRevive, calls_since.
  split; [|split].
  - intros pre r post E Hpre Hr. rewrite E in *.
    rewrite (tryRevive_over_refused webview f pre (r :: post) m);
      [| intros; apply Hdet; apply in_or_app; now left | exact Hpre].
    simpl. unfold bind, call_canRevive. simpl.
    rewrite (Hdet r _ (in_elt r pre post)).
    rewrite Hr. simpl.
    destruct (log_all_frame C (probe_all pre webview) m)
      as (_ & _ & _ & _ & _ & _ & P).
    rewrite P. split; [reflexivity|].
    rewrite log_all_calls, <- !app_assoc. simpl.
    apply skipn_length_app.
  - intros Hno.
    pose proof (tryRevive_over_refused webview f (_revivers m) [] m Hdet Hno)
      as H.
    rewrite app_nil_r in H. rewrite H. simpl. split; [reflexivity|].
    rewrite log_all_calls. apply skipn_length_app.
  - destruct (existsb f (_revivers m)) eqn:Hex.
    + destruct (first_accepting f _ Hex) as (pre & r & post & E & Hpre & Hr).
      rewrite E in Hdet. rewrite E at 1 3.
      rewrite (tryRevive_over_refused webview f pre (r :: post) m);
        [| intros; apply Hdet; apply in_or_app; now left | exact Hpre].
      simpl. unfold bind, call_canRevive. simpl.
      rewrite (Hdet r _ (in_elt r pre post)).
      rewrite Hr. simpl.
      destruct (log_all_frame C (probe_all pre webview) m) as (R & Q & _).
      auto.
    + assert (Hno : forall r, In r (_revivers m) -> f r = false).
      { intros r Hin. destruct (f r) eqn:Hr; auto.
        assert (existsb f (_revivers m) = true)
          by (apply existsb_exists; eauto).
        congruence. }
      pose proof (tryRevive_over_refused webview f (_revivers m) [] m
                    Hdet Hno) as H.
      rewrite app_nil_r in H. rewrite H. simpl.
      destruct (log_all_frame C (probe_all (_revivers m) webview) m)
        as (R & Q & _).
      auto.
Qed.

End Queries.

(** * Creating and revealing panels *)

Section Placement.

Variable C : Collaborators.

(** C9.  [createWebview] builds one panel, asks the editor service once to
    open it, pinned, with the caller's focus flag and group, and returns
    the panel; it makes no other call, parks nothing on the promise of
    [openEditor], schedules nothing, and leaves the registry and the
    revival queue alone. *)
Theorem createWebview_opens_once
    (m : Machine C) (vt name : string)
    (showOptions : ICreateWebViewShowOptions) (o : WebviewInputOptions)
    (loc : option URI) (ev : WebviewEvents) :
  let x := eval (createWebview C vt name showOptions o loc ev) m in
  let m' := exec (createWebview C vt name showOptions o loc ev) m in
  calls_since m m'
  = [EvCreateInstance WebviewEditorInputCtor x;
     EvOpenEditor x {| pinned := Some true;
                       opt_preserveFocus := preserveFocus showOptions |}
       (Some (group showOptions))]
  /\ length (filter is_open (calls_since m m')) = 1
  /\ handle x = nextHandle m /\ viewType x = vt /\ title x = name
  /\ awaiting m' = awaiting m
  /\ microtasks m' = microtasks m
  /\ _revivers m' = _revivers m
  /\ _awaitingRevival m' = _awaitingRevival m.
Proof.
  cbv zeta. unfold calls_since, eval, exec, createWebview, bind,
    createInstance, emit. simpl.
  rewrite <- app_assoc. simpl. rewrite skipn_length_app. simpl.
  repeat split.
Qed.

(** C7.  Revealing a panel in the group it is already in asks the editor
    service once to open it there, with the focus flag and without
    pinning; the group service is not consulted and no move is asked
    for. *)
Theorem revealWebview_same_group_reopens
    (m : Machine C) (webview : WebviewEditorInput) (target : IEditorGroup)
    (preserve : bool)
    (Hsame : webview_group webview = Some (id target)) :
  let m' := exec (revealWebview C webview target preserve) m in
  calls_since m m'
  = [EvOpenEditor webview
       {| pinned := None; opt_preserveFocus := preserve |}
       (Some (TargetId (id target)))]
  /\ length (filter is_open (calls_since m m')) = 1
  /\ filter is_move (calls_since m m') = []
  /\ _revivers m' = _revivers m
  /\ _awaitingRevival m' = _awaitingRevival m.
Proof.
  cbv zeta. unfold calls_since, exec, revealWebview. rewrite Hsame.
  simpl. rewrite Z.eqb_refl. simpl. rewrite skipn_length_app. simpl.
  repeat split.
Qed.

(** C2, as the code has it.  Revealing a panel in another group looks up
    the live view of the group the panel is in now; if there is one, that
    view is asked to move the panel to the target group with the focus
    flag; if there is none, nothing further happens.  The target group is
    never looked up. *)
Theorem revealWebview_moves_from_current_group
    (m : Machine C) (webview : WebviewEditorInput) (target : IEditorGroup)
    (preserve : bool)
    (Hother : webview_group webview <> Some (id target)) :
  let m' := exec (revealWebview C webview target preserve) m in
  calls_since m m'
  = EvGetGroup (webview_group webview)
    :: match answer_getGroup C (world m) (webview_group webview) with
       | Some view => [EvMoveEditor view webview target preserve]
       | None => []
       end
  /\ filter is_open (calls_since m m') = []
  /\ _revivers m' = _revivers m
  /\ _awaitingRevival m' = _awaitingRevival m.
Proof.
  cbv zeta. unfold calls_since, exec, revealWebview.
  assert (Hneq : same_group (webview_group webview) (id target) = false).
  { unfold same_group. destruct (webview_group webview) as [g|]; auto.
    apply Z.eqb_neq. intros ->. now apply Hother. }
  rewrite Hneq. unfold bind, call_getGroup. simpl.
  destruct (answer_getGroup C (world m) (webview_group webview)); simpl;
    rewrite <- ?app_assoc; rewrite skipn_length_app; simpl; repeat split.
Qed.

End Placement.


(** * Accounting for panels *)

Section Accounting.

Variable C : Collaborators.

Lemma weight_frame (m m' : Machine C) h :
  unpopulated m' = unpopulated m -> microtasks m' = microtasks m ->
  awaiting m' = awaiting m -> _awaitingRevival m' = _awaitingRevival m ->
  weight m' h = weight m h.
Proof.
  intros U T A Q. unfold weight, dormant, arriving, queued.
  now rewrite U, T, A, Q.
Qed.

Lemma count_occ_remove_same (l : list nat) h :
  count_occ Nat.eq_dec (remove Nat.eq_dec h l) h = 0.
Proof.
  apply count_occ_not_In. apply remove_In.
Qed.

Lemma count_occ_remove_other (l : list nat) h h' :
  h <> h' ->
  count_occ Nat.eq_dec (remove Nat.eq_dec h l) h'
  = count_occ Nat.eq_dec l h'.
Proof.
  intros Hne. induction l as [|y l IH]; simpl; auto.
  destruct (Nat.eq_dec h y) as [->|Hy].
  - destruct (Nat.eq_dec y h'); [contradiction | exact IH].
  - simpl. destruct (Nat.eq_dec y h'); now rewrite IH.
Qed.

Lemma filter_partition_length {A : Type} (g a : A -> bool) (l : list A) :
  length (filter g (filter a l))
  + length (filter g (filter (fun x => negb (a x)) l))
  = length (filter g l).
Proof.
  induction l as [|x l IH]; simpl; auto.
  destruct (a x), (g x) eqn:Hg; simpl; rewrite ?Hg; simpl; lia.
Qed.

Lemma dispatched_events_count reviver h : forall l p,
  length (filter (is_revive h) (dispatched_events reviver l p))
  = length (filter (entry_of h) l).
Proof.
  induction l as [|x l IH]; intros p; simpl; auto.
  unfold entry_of at 1. destruct (handle (input x) =? h); simpl;
    now rewrite IH.
Qed.

Lemma dispatched_parked_idle h : forall l p,
  filter (resumes_unrevived h) (map snd (dispatched_parked l p)) = [].
Proof. induction l as [|x l IH]; intros p; simpl; auto. Qed.

Lemma probes_idle reviver h l : filter (is_revive h) (probes reviver l) = [].
Proof. induction l as [|x l IH]; simpl; auto. Qed.

Lemma probe_all_idle h webview rs :
  filter (is_revive h) (probe_all rs webview) = [].
Proof. induction rs as [|r rs IH]; simpl; auto. Qed.

(** What [tryRevive] can do, whatever the revivers answer. *)
Lemma tryRevive_over_outcome webview : forall rs m,
  let t := fst (tryRevive_over C rs webview m) in
  let m' := snd (tryRevive_over C rs webview m) in
  (exists asked,
      (t = Now false /\ calls m' = calls m ++ probe_all asked webview
       /\ nextPromise m' = nextPromise m)
      \/ (exists r, In r rs /\ t = After (nextPromise m) true
          /\ calls m' = calls m ++ probe_all asked webview
                          ++ [EvReviveWebview r webview (nextPromise m)]
          /\ nextPromise m' = S (nextPromise m)))
  /\ _revivers m' = _revivers m
  /\ _awaitingRevival m' = _awaitingRevival m
  /\ awaiting m' = awaiting m
  /\ microtasks m' = microtasks m
  /\ unpopulated m' = unpopulated m
  /\ nextHandle m' = nextHandle m.
Proof.
  induction rs as [|r rs IH]; intros m; cbv zeta; simpl.
  - split; [|repeat split]. exists []. left. simpl.
    now rewrite app_nil_r.
  - unfold bind, call_canRevive. simpl.
    destruct (answer_canRevive C (world m) r webview).
    + simpl. split; [|repeat split]. exists [r]. right. exists r.
      rewrite <- app_assoc. simpl. repeat split; auto.
    + specialize (IH (with_log C (EvCanRevive r webview) m)).
      cbv zeta in IH. simpl in IH.
      destruct IH as ((asked & IH) & F). split; [|exact F].
      exists (r :: asked). simpl.
      destruct IH as [(Ht & Hc & Hp) | (r0 & Hin & Ht & Hc & Hp)].
      * left. rewrite Ht, Hc, Hp, <- app_assoc. auto.
      * right. exists r0. rewrite Ht, Hc, Hp, <- app_assoc. auto.
Qed.

(** What [canRevive] can do, whatever the revivers answer: it asks
    registered revivers and does nothing else. *)
Lemma canRevive_over_outcome webview : forall rs m,
  let m' := snd (canRevive_over C rs webview m) in
  (exists asked, calls m' = calls m ++ probe_all asked webview
                 /\ incl asked rs)
  /\ _revivers m' = _revivers m
  /\ _awaitingRevival m' = _awaitingRevival m
  /\ awaiting m' = awaiting m
  /\ microtasks m' = microtasks m
  /\ unpopulated m' = unpopulated m
  /\ nextHandle m' = nextHandle m
  /\ nextPromise m' = nextPromise m.
Proof.
  induction rs as [|r rs IH]; intros m; cbv zeta; simpl.
  - split; [|repeat split]. exists []. simpl. rewrite app_nil_r.
    split; [reflexivity | apply incl_nil_l].
  - unfold bind, call_canRevive. simpl.
    destruct (answer_canRevive C (world m) r webview).
    + simpl. split; [|repeat split]. exists [r]. split; [reflexivity|].
      intros y [<-|[]]. now left.
    + specialize (IH (with_log C (EvCanRevive r webview) m)).
      cbv zeta in IH. simpl in IH.
      destruct IH as ((asked & Hc & Hi) & F). split; [|exact F].
      exists (r :: asked). simpl. rewrite Hc, <- app_assoc. split; auto.
      intros y [<-|Hy]; [now left | right; now apply Hi].
Qed.

Lemma effect_quiet strict (m m' : Machine C) h es :
  calls m' = calls m ++ es ->
  filter (is_revive h) es = [] ->
  nextHandle m <= nextHandle m' ->
  weight m' h <= weight m h + fresh m m' h ->
  effect strict m m' h.
Proof.
  intros Hc Hq Hn Hw. exists es. rewrite Hq. simpl.
  repeat split; auto; lia.
Qed.

Lemma fresh_same (m m' : Machine C) h : nextHandle m' = nextHandle m -> fresh m m' h = 0.
Proof.
  intros E. unfold fresh. rewrite E.
  destruct (nextHandle m <=? h) eqn:H1; simpl; auto.
  destruct (h <? nextHandle m) eqn:H2; auto.
  apply Nat.leb_le in H1. apply Nat.ltb_lt in H2. lia.
Qed.

Lemma fresh_next (m m' : Machine C) h :
  nextHandle m' = S (nextHandle m) ->
  fresh m m' h = if nextHandle m =? h then 1 else 0.
Proof.
  intros E. unfold fresh. rewrite E.
  destruct (nextHandle m <=? h) eqn:H1, (h <? S (nextHandle m)) eqn:H2,
    (nextHandle m =? h) eqn:H3; simpl; auto;
    rewrite ?Nat.leb_le, ?Nat.leb_gt, ?Nat.ltb_lt, ?Nat.ltb_ge,
      ?Nat.eqb_eq, ?Nat.eqb_neq in *; lia.
Qed.

Lemma effect_createWebview strict m vt name so o loc ev h :
  effect strict m (exec (createWebview C vt name so o loc ev) m) h.
Proof.
  eapply effect_quiet with (es := [_; _]).
  - unfold exec, createWebview, bind, createInstance, emit. simpl.
    rewrite <- app_assoc. reflexivity.
  - reflexivity.
  - simpl. lia.
  - rewrite (weight_frame m); auto. lia.
Qed.

Ltac unchanged_weight m :=
  rewrite (weight_frame m) by reflexivity; lia.

Lemma effect_revealWebview strict m webview target preserve h :
  effect strict m (exec (revealWebview C webview target preserve) m) h.
Proof.
  unfold exec, revealWebview.
  destruct (same_group (webview_group webview) (id target)).
  - eapply effect_quiet with (es := [_]);
      [reflexivity | reflexivity | simpl; lia | unchanged_weight m].
  - unfold bind, call_getGroup.
    destruct (answer_getGroup C (world m) (webview_group webview)).
    + eapply effect_quiet with (es := [_; _]);
        [simpl; now rewrite <- app_assoc | reflexivity | simpl; lia
        | unchanged_weight m].
    + eapply effect_quiet with (es := [_]);
        [reflexivity | reflexivity | simpl; lia | unchanged_weight m].
Qed.

Lemma effect_reviveWebview strict m vt pid name icon st o loc h :
  effect strict m (exec (reviveWebview C vt pid name icon st o loc) m) h.
Proof.
  eapply effect_quiet with (es := [_]).
  - unfold exec, reviveWebview, bind, createInstance. simpl. reflexivity.
  - reflexivity.
  - simpl. lia.
  - rewrite fresh_next by reflexivity.
    unfold weight, dormant, arriving, queued, exec, reviveWebview, bind,
      createInstance. simpl.
    rewrite count_occ_app. simpl.
    destruct (Nat.eq_dec (nextHandle m) h) as [E|E].
    + apply Nat.eqb_eq in E. rewrite E. lia.
    + apply Nat.eqb_neq in E. rewrite E. lia.
Qed.

Lemma effect_dispose strict m d h : effect strict m (exec (dispose C d) m) h.
Proof.
  destruct d as [r].
  eapply effect_quiet with (es := []);
    [simpl; now rewrite app_nil_r | reflexivity | simpl; lia
    | unchanged_weight m].
Qed.

Lemma effect_canRevive strict m webview h :
  effect strict m (exec (canRevive C webview) m) h.
Proof.
  unfold exec, canRevive.
  pose proof (canRevive_over_outcome webview (_revivers m) m) as H.
  cbv zeta in H.
  destruct H as ((asked & Hc & _) & _ & Q & A & T & U & N & _).
  eapply effect_quiet;
    [exact Hc | apply probe_all_idle | lia
    | rewrite (weight_frame m) by assumption; lia].
Qed.

Lemma arriving_fulfil m p h :
  arriving (exec (fulfil C p) m) h = arriving m h.
Proof.
  unfold arriving, exec, fulfil. simpl.
  rewrite !filter_app, !length_app.
  pose proof (filter_partition_length
                (fun pk => resumes_unrevived h (snd pk)) (awaits p)
                (awaiting m)) as H.
  assert (Hmap : forall l : list (Promise * Continuation),
            filter (resumes_unrevived h) (map snd l)
            = map snd (filter (fun pk => resumes_unrevived h (snd pk)) l)).
  { induction l as [|x l IH]; simpl; auto.
    destruct (resumes_unrevived h (snd x)); simpl; now rewrite IH. }
  rewrite !Hmap, !length_map. lia.
Qed.

Lemma effect_fulfil strict m p h : effect strict m (exec (fulfil C p) m) h.
Proof.
  eapply effect_quiet with (es := []);
    [simpl; now rewrite app_nil_r | reflexivity | simpl; lia |].
  unfold weight. rewrite arriving_fulfil.
  unfold dormant, queued, exec, fulfil. simpl. lia.
Qed.

Lemma effect_tick strict m h : effect strict m (exec (tick C) m) h.
Proof.
  rewrite tick_exec. destruct (microtasks m) as [|k rest] eqn:Hm.
  - eapply effect_quiet with (es := []);
      [now rewrite app_nil_r | reflexivity | lia | lia].
  - destruct k as [x [|]|q].
    + eapply effect_quiet with (es := [_]);
        [reflexivity | reflexivity | simpl; lia |].
      rewrite fresh_same by reflexivity.
      unfold weight, dormant, arriving, queued, exec. simpl. rewrite Hm.
      simpl. lia.
    + eapply effect_quiet with (es := []);
        [simpl; now rewrite app_nil_r | reflexivity | simpl; lia |].
      rewrite fresh_same by reflexivity.
      unfold weight, dormant, arriving, queued, exec. simpl.
      rewrite Hm. simpl. rewrite !filter_app, !length_app. simpl.
      unfold entry_of at 2. simpl.
      destruct (handle x =? h); simpl; rewrite ?length_app; lia.
    + eapply effect_quiet with (es := [_]);
        [reflexivity | reflexivity | simpl; lia |].
      rewrite fresh_same by reflexivity.
      unfold weight, dormant, arriving, queued, exec. simpl. rewrite Hm.
      simpl. lia.
Qed.

Lemma dormant_enabled (l : list nat) h :
  existsb (Nat.eqb h) l = true -> 1 <= count_occ Nat.eq_dec l h.
Proof.
  intros H. apply existsb_exists in H. destruct H as (y & Hy & E).
  apply Nat.eqb_eq in E. subst y.
  apply (count_occ_In Nat.eq_dec) in Hy. lia.
Qed.

Lemma effect_populate strict m webview h :
  effect strict m (exec (populate C webview) m) h.
Proof.
  unfold exec, populate.
  destruct (existsb (Nat.eqb (handle webview)) (unpopulated m)) eqn:Hen.
  - apply dormant_enabled in Hen.
    set (m0 := with_unpopulated C
                 (remove Nat.eq_dec (handle webview) (unpopulated m)) m).
    unfold revival_callback, bind, tryRevive.
    pose proof (tryRevive_over_outcome webview (_revivers m0) m0) as H.
    cbv zeta in H.
    destruct (tryRevive_over C (_revivers m0) webview m0) as [t m1].
    simpl in H. destruct H as ((asked & H) & _ & Q & A & T & U & N).
    assert (Hd : dormant m h
                 = dormant m0 h + (if handle webview =? h
                                   then dormant m h else 0)).
    { unfold dormant, m0. simpl.
      destruct (Nat.eq_dec (handle webview) h) as [E|E].
      - rewrite E, Nat.eqb_refl, count_occ_remove_same. lia.
      - rewrite count_occ_remove_other by exact E.
        apply Nat.eqb_neq in E. rewrite E. lia. }
    destruct H as [(-> & Hc & _) | (r & _ & -> & Hc & _)].
    + eapply effect_quiet with (es := probe_all asked webview);
        [exact Hc | apply probe_all_idle | simpl; rewrite N; simpl; lia |].
      rewrite fresh_same by (simpl; rewrite N; reflexivity).
      unfold weight. rewrite Hd. unfold dormant, arriving, queued. simpl.
      rewrite U, T, A, Q. simpl.
      rewrite !filter_app, !length_app. simpl.
      destruct (handle webview =? h) eqn:E.
      * apply Nat.eqb_eq in E. subst h. unfold dormant in Hen. simpl. lia.
      * simpl. lia.
    + exists (probe_all asked webview
              ++ [EvReviveWebview r webview (nextPromise m0)]).
      rewrite fresh_same by (simpl; rewrite N; reflexivity).
      rewrite filter_app, length_app, probe_all_idle.
      unfold weight. rewrite Hd. unfold dormant, arriving, queued. simpl.
      rewrite U, T, A, Q, N. simpl.
      rewrite !map_app, !filter_app, !length_app. simpl.
      split; [exact Hc|]. split; [lia|].
      destruct (handle webview =? h) eqn:E; simpl.
      * apply Nat.eqb_eq in E. subst h. unfold dormant in Hen.
        repeat split; try intros _; lia.
      * repeat split; try intros _; lia.
  - eapply effect_quiet with (es := []);
      [now rewrite app_nil_r | reflexivity | simpl; lia | simpl; lia].
Qed.

Lemma weight_registerReviver m reviver h :
  weight (exec (registerReviver C reviver) m) h
  = dormant m h + arriving m h
    + length (filter (entry_of h)
                (_awaitingRevival (snd (drain C reviver m)))).
Proof.
  pose proof (registerReviver_fields C reviver m) as F. cbv zeta in F.
  destruct F as (_ & _ & Fq & Fa & Fm & Fu & _).
  unfold weight, dormant, arriving, queued. rewrite Fu, Fm, Fa, Fq.
  rewrite map_app, !filter_app, !length_app, dispatched_parked_idle.
  simpl. lia.
Qed.

Lemma effect_registerReviver m reviver h :
  effect (deterministic_checks C) m (exec (registerReviver C reviver) m) h.
Proof.
  pose proof (registerReviver_fields C reviver m) as F. cbv zeta in F.
  destruct F as (Fc & _ & Fq & Fa & Fm & Fu & Fh & _).
  exists (probes reviver (_awaitingRevival m)
          ++ probes reviver (_awaitingRevival m)
          ++ dispatched_events reviver (fst (drain C reviver m))
               (nextPromise m)).
  rewrite fresh_same by exact Fh.
  rewrite !filter_app, !length_app, !probes_idle, dispatched_events_count.
  simpl.
  rewrite weight_registerReviver.
  assert (Hkeep : length (filter (entry_of h)
                            (_awaitingRevival (snd (drain C reviver m))))
                  <= queued m h).
  { pose proof (drain_exec C reviver m) as E. cbv zeta in E. rewrite E.
    simpl. apply filterM_shrinks. }
  assert (Htake : length (filter (entry_of h) (fst (drain C reviver m)))
                  <= queued m h).
  { rewrite drain_eval. apply filterM_shrinks. }
  split; [exact Fc|]. split; [lia|]. split; [unfold weight; lia|].
  split; [lia|].
  intros Hdet.
  destruct (drain_deterministic C reviver m
              (answer_canRevive C (world m) reviver)) as [Dt Dk].
  { intros w e _. apply Hdet. }
  rewrite Dt, Dk.
  pose proof (filter_partition_length (entry_of h)
                (fun e => answer_canRevive C (world m) reviver (input e))
                (_awaitingRevival m)) as P.
  unfold weight, queued. lia.
Qed.

(** Every step of the service has its effect on every panel's account. *)
Lemma effect_step a m h : effect (deterministic_checks C) m (step C a m) h.
Proof.
  destruct a; simpl.
  - apply effect_createWebview.
  - apply effect_revealWebview.
  - apply effect_reviveWebview.
  - apply effect_registerReviver.
  - apply effect_dispose.
  - apply effect_canRevive.
  - apply effect_populate.
  - apply effect_fulfil.
  - apply effect_tick.
Qed.

End Accounting.

(** * Invariants of the running service *)

Section Invariants.

Variable C : Collaborators.

Lemma dispatched_grows (m m' : Machine C) es h :
  calls m' = calls m ++ es ->
  dispatched m' h = dispatched m h + length (filter (is_revive h) es).
Proof.
  intros E. unfold dispatched. now rewrite E, filter_app, length_app.
Qed.

Lemma fresh_bound (m m' : Machine C) h :
  nextHandle m <= nextHandle m' ->
  (if h <? nextHandle m then 1 else 0) + fresh m m' h
  = (if h <? nextHandle m' then 1 else 0).
Proof.
  intros Hn. unfold fresh.
  destruct (h <? nextHandle m) eqn:H1, (nextHandle m <=? h) eqn:H2,
    (h <? nextHandle m') eqn:H3; simpl; auto;
    rewrite ?Nat.leb_le, ?Nat.leb_gt, ?Nat.ltb_lt, ?Nat.ltb_ge in *; lia.
Qed.

Lemma accounted_step (Hdet : deterministic_checks C) a m h :
  accounted_for m h -> accounted_for (step C a m) h.
Proof.
  unfold accounted_for. intros H.
  destruct (effect_step C a m h) as (es & Hc & Hn & _ & _ & Hs).
  specialize (Hs Hdet).
  rewrite (dispatched_grows m _ es h Hc).
  rewrite <- (fresh_bound m (step C a m) h Hn). lia.
Qed.

Lemma accounted_run (Hdet : deterministic_checks C) acts : forall m,
  (forall h, accounted_for m h) ->
  forall h, accounted_for (run C acts m) h.
Proof.
  induction acts as [|a acts IH]; intros m H h; simpl; auto.
  apply IH. intros h'. now apply accounted_step.
Qed.

Lemma accounted_init w h : accounted_for (init C w) h.
Proof.
  unfold accounted_for, weight, dormant, arriving, queued, dispatched.
  simpl. lia.
Qed.

(** Without any assumption on the revivers a panel is dormant, arriving
    or queued at most once. *)
Lemma weight_step a m h :
  weight m h <= (if h <? nextHandle m then 1 else 0) ->
  weight (step C a m) h <= (if h <? nextHandle (step C a m) then 1 else 0).
Proof.
  intros H. destruct (effect_step C a m h) as (es & _ & Hn & Hw & _).
  rewrite <- (fresh_bound m (step C a m) h Hn). lia.
Qed.

Lemma queue_holds_panel_once acts : forall m,
  (forall h, weight m h <= (if h <? nextHandle m then 1 else 0)) ->
  forall h, queued (run C acts m) h <= 1.
Proof.
  induction acts as [|a acts IH]; intros m H h; simpl.
  - specialize (H h). unfold weight in H.
    destruct (h <? nextHandle m); lia.
  - apply IH. intros h'. now apply weight_step.
Qed.

(** A panel with no weight left never gains any, and no reconstruction is
    dispatched for it again, whatever the revivers answer. *)
Lemma is_revive_of_is_revive reviver h es :
  filter (is_revive h) es = [] -> filter (is_revive_of reviver h) es = [].
Proof.
  induction es as [|e es IH]; simpl; auto.
  destruct (is_revive h e) eqn:E; [discriminate|]. intros H.
  assert (is_revive_of reviver h e = false) as ->.
  { destruct e; simpl in *; auto. rewrite E. apply andb_false_r. }
  auto.
Qed.

Lemma settled_step a m h :
  weight m h = 0 -> h < nextHandle m ->
  weight (step C a m) h = 0 /\ h < nextHandle (step C a m)
  /\ forall reviver,
       dispatched_to (step C a m) reviver h = dispatched_to m reviver h.
Proof.
  intros Hw Hn.
  destruct (effect_step C a m h) as (es & Hc & Hle & Hw' & Hd & _).
  assert (Hf : fresh m (step C a m) h = 0).
  { unfold fresh. destruct (nextHandle m <=? h) eqn:E; auto.
    apply Nat.leb_le in E. lia. }
  assert (Hes : filter (is_revive h) es = []).
  { unfold weight in Hw.
    destruct (filter (is_revive h) es); auto. simpl in Hd. lia. }
  split; [lia|]. split; [lia|]. intros reviver.
  unfold dispatched_to. rewrite Hc, filter_app, length_app.
  rewrite (is_revive_of_is_revive reviver h es Hes). simpl. lia.
Qed.

Lemma settled_run acts : forall m h,
  weight m h = 0 -> h < nextHandle m ->
  forall reviver,
    dispatched_to (run C acts m) reviver h = dispatched_to m reviver h.
Proof.
  induction acts as [|a acts IH]; intros m h Hw Hn reviver; simpl; auto.
  destruct (settled_step a m h Hw Hn) as (Hw' & Hn' & Hd).
  rewrite (IH _ h Hw' Hn' reviver). apply Hd.
Qed.

End Invariants.

(** * Registration, deregistration and the queue over time *)

Section Lifecycle.

Variable C : Collaborators.

Lemma filter_has {A : Type} (sel : A -> bool) (l : list A) x :
  In x l -> sel x = true -> 1 <= length (filter sel l).
Proof.
  intros Hin Hs.
  assert (H : In x (filter sel l)) by (apply filter_In; auto).
  destruct (filter sel l); [destruct H | simpl; lia].
Qed.

Lemma filter_single {A : Type} (sel : A -> bool) (l : list A) x :
  In x l -> sel x = true -> length (filter sel l) <= 1 ->
  forall y, In y l -> sel y = true -> y = x.
Proof.
  intros Hin Hs Hlen y Hy Hsy.
  assert (Hx : In x (filter sel l)) by (apply filter_In; auto).
  assert (Hy' : In y (filter sel l)) by (apply filter_In; auto).
  destruct (filter sel l) as [|z [|z' t]]; simpl in *.
  - destruct Hx.
  - destruct Hx as [<-|[]], Hy' as [<-|[]]. reflexivity.
  - lia.
Qed.

Lemma drain_log reviver m h :
  dispatched (snd (drain C reviver m)) h = dispatched m h.
Proof.
  pose proof (drain_fields C reviver m) as D. cbv zeta in D.
  destruct D as (Dc & _). unfold dispatched.
  rewrite Dc, !filter_app, !probes_idle. now rewrite app_nil_r.
Qed.

(** C3, as the code has it.  In every state the service can reach a
    panel has at most one entry in the revival queue.  When capability
    checks are functions of the panel, moreover, at most one
    reconstruction has been dispatched for it, and none if it is still
    queued; and a registration runs its dispatch loop on a machine whose
    queue no longer holds any of the entries the loop is about to
    dispatch, the log of that machine showing no dispatch yet. *)
Theorem queued_revival_dispatched_once
    (w : World C) (acts : list Action) :
  let m := run C acts (init C w) in
  (forall h, queued m h <= 1)
  /\ (deterministic_checks C ->
      (forall h, dispatched m h <= 1)
      /\ (forall h, 1 <= queued m h -> dispatched m h = 0)
      /\ (forall reviver,
            let toRevive := fst (drain C reviver m) in
            let m1 := snd (drain C reviver m) in
            exec (registerReviver C reviver) m
            = exec (forEachM (dispatch C reviver) toRevive) m1
            /\ (forall h, dispatched m1 h = dispatched m h)
            /\ (forall e, In e toRevive ->
                  queued m1 (handle (input e)) = 0)
            /\ _awaitingRevival (exec (registerReviver C reviver) m)
               = _awaitingRevival m1)).
Proof.
  cbv zeta. split.
  { apply queue_holds_panel_once. intros h.
    unfold weight, dormant, arriving, queued. simpl. lia. }
  intros Hdet.
  pose proof (accounted_run C Hdet acts (init C w) (accounted_init C w))
    as Hacc.
  set (m := run C acts (init C w)) in *.
  assert (Hb : forall h, weight m h + dispatched m h <= 1).
  { intros h. specialize (Hacc h). unfold accounted_for in Hacc.
    destruct (h <? nextHandle m); lia. }
  split; [intros h; specialize (Hb h); lia|].
  split; [intros h Hq; specialize (Hb h); unfold weight in Hb; lia|].
  intros reviver. split; [apply registerReviver_exec|].
  split; [intros h; apply drain_log|]. split.
  - intros e He.
    destruct (drain_deterministic C reviver m
                (answer_canRevive C (world m) reviver)) as [Dt Dk].
    { intros w' e' _. apply Hdet. }
    rewrite Dt in He. apply filter_In in He. destruct He as [Hin Hf].
    unfold queued at 1. rewrite Dk.
    pose proof (filter_partition_length (entry_of (handle (input e)))
                  (fun e => answer_canRevive C (world m) reviver (input e))
                  (_awaitingRevival m)) as P.
    assert (H1 : 1 <= length (filter (entry_of (handle (input e)))
                                (filter (fun e => answer_canRevive C (world m)
                                                    reviver (input e))
                                   (_awaitingRevival m)))).
    { apply filter_has with (x := e).
      - apply filter_In. auto.
      - unfold entry_of. apply Nat.eqb_refl. }
    cbv beta in P.
    specialize (Hb (handle (input e))). unfold weight, queued in Hb. lia.
  - pose proof (registerReviver_fields C reviver m) as F. cbv zeta in F.
    destruct F as (_ & _ & Fq & _). exact Fq.
Qed.

(** C10.  A registration runs the reviver's capability check over the
    whole queue twice before it dispatches anything.  When that check is
    a function of the panel, the entries that left the queue are the
    entries handed to the reviver, and no entry left in the queue is
    accepted by the reviver. *)
Theorem registerReviver_passes_agree
    (reviver : WebviewReviver) (m : Machine C)
    (Hdet : forall x w w',
              answer_canRevive C w reviver x
              = answer_canRevive C w' reviver x) :
  let m' := exec (registerReviver C reviver) m in
  let q := _awaitingRevival m in
  let toRevive := fst (drain C reviver m) in
  calls_since m m'
  = probes reviver q ++ probes reviver q
    ++ dispatched_events reviver toRevive (nextPromise m)
  /\ (forall e, In e q /\ ~ In e (_awaitingRevival m') <-> In e toRevive)
  /\ (forall e w, In e (_awaitingRevival m') ->
        answer_canRevive C w reviver (input e) = false).
Proof.
  cbv zeta.
  pose proof (registerReviver_fields C reviver m) as F. cbv zeta in F.
  destruct F as (Fc & _ & Fq & _).
  destruct (drain_deterministic C reviver m
              (answer_canRevive C (world m) reviver)) as [Dt Dk].
  { intros w e _. apply Hdet. }
  rewrite Fq, Dk, Dt. split; [|split].
  - unfold calls_since. rewrite Fc, Dt. apply skipn_length_app.
  - intros e. rewrite !filter_In. split.
    + intros [Hin Hout]. split; [exact Hin|].
      destruct (answer_canRevive C (world m) reviver (input e)) eqn:E;
        [reflexivity|].
      exfalso. apply Hout. split; [exact Hin | reflexivity].
    + intros [Hin Hf]. split; [exact Hin|]. intros [_ Hn].
      rewrite Hf in Hn. discriminate.
  - intros e w Hin. apply filter_In in Hin. destruct Hin as [_ Hn].
    rewrite (Hdet (input e) w (world m)).
    now destruct (answer_canRevive C (world m) reviver (input e)).
Qed.

Lemma dispatched_events_count_to reviver h : forall l p,
  length (filter (is_revive_of reviver h) (dispatched_events reviver l p))
  = length (filter (entry_of h) l).
Proof.
  induction l as [|x l IH]; intros p; simpl; auto.
  rewrite Nat.eqb_refl. simpl. unfold entry_of at 1.
  destruct (handle (input x) =? h); simpl; now rewrite IH.
Qed.

Lemma dispatched_events_other reviver other h : other <> reviver ->
  forall l p,
    filter (is_revive_of other h) (dispatched_events reviver l p) = [].
Proof.
  intros Hne. induction l as [|x l IH]; intros p; simpl; auto.
  apply Nat.eqb_neq in Hne. rewrite Nat.eqb_sym in Hne. rewrite Hne.
  simpl. apply IH.
Qed.

(** C6.  A panel sits in the queue of a machine that accounts for it, and
    two different revivers both accept it.  After the first and then the
    second have been registered, the first has been asked once to
    reconstruct the panel and the second never; the panel is out of the
    queue; and whatever the service does afterwards changes neither
    count. *)
Theorem first_registered_reviver_wins
    (m : Machine C) (P : WebviewEditorInput) (q : Promise)
    (rA rB : WebviewReviver) (future : list Action)
    (Hq : In {| input := P; resolve := q |} (_awaitingRevival m))
    (Hacc : accounted_for m (handle P))
    (HA : forall w, answer_canRevive C w rA P = true)
    (HB : forall w, answer_canRevive C w rB P = true)
    (Hneq : rA <> rB) :
  let m2 := run C [DoRegisterReviver rA; DoRegisterReviver rB] m in
  let m' := run C future m2 in
  dispatched_to m2 rA (handle P) = 1
  /\ dispatched_to m2 rB (handle P) = 0
  /\ queued m2 (handle P) = 0
  /\ dispatched_to m' rA (handle P) = 1
  /\ dispatched_to m' rB (handle P) = 0.
Proof.
  cbv zeta. set (h := handle P). set (e := {| input := P; resolve := q |}).
  assert (He : entry_of h e = true) by apply Nat.eqb_refl.
  pose proof (filter_has (entry_of h) _ e Hq He) as Hq1.
  unfold accounted_for in Hacc. fold h in Hacc.
  assert (Hn : h < nextHandle m).
  { destruct (h <? nextHandle m) eqn:E; [now apply Nat.ltb_lt in E|].
    unfold weight, queued in Hacc. lia. }
  assert (E : (h <? nextHandle m) = true) by now apply Nat.ltb_lt.
  rewrite E in Hacc. unfold weight in Hacc. unfold queued in Hacc at 1.
  assert (Hone : forall y, In y (_awaitingRevival m) ->
                           entry_of h y = true -> y = e).
  { apply filter_single; auto. lia. }
  set (m1 := exec (registerReviver C rA) m).
  (* what the first registration takes and what it leaves *)
  assert (Htake : filter (entry_of h) (fst (drain C rA m))
                  = filter (entry_of h) (_awaitingRevival m)).
  { rewrite drain_eval.
    apply (filterM_select C (first_pass C rA) (entry_of h) true).
    intros x m0 Hx Hs. rewrite (Hone x Hx Hs). simpl. apply HA. }
  assert (Hkeep : filter (entry_of h) (_awaitingRevival (snd (drain C rA m)))
                  = []).
  { pose proof (drain_exec C rA m) as D. cbv zeta in D. rewrite D. simpl.
    apply (filterM_select C (second_pass C rA) (entry_of h) false).
    intros x m0 Hx Hs. rewrite (Hone x Hx Hs). simpl. now rewrite HA. }
  pose proof (registerReviver_fields C rA m) as F. cbv zeta in F.
  destruct F as (Fc & _ & Fq & _ & _ & _ & Fh & _). fold m1 in Fc, Fq, Fh.
  assert (Hnone : filter (is_revive h) (calls m) = []).
  { unfold dispatched in Hacc.
    destruct (filter (is_revive h) (calls m)); auto. simpl in Hacc. lia. }
  assert (Hto : forall r,
            dispatched_to m1 r h
            = length (filter (is_revive_of r h)
                        (dispatched_events rA (fst (drain C rA m))
                           (nextPromise m)))).
  { intros r. unfold dispatched_to. rewrite Fc, !filter_app, !length_app.
    rewrite (is_revive_of_is_revive r h _ Hnone).
    rewrite (is_revive_of_is_revive r h _ (probes_idle rA h _)).
    simpl. lia. }
  assert (HtoA : dispatched_to m1 rA h = 1).
  { rewrite Hto, dispatched_events_count_to, Htake. lia. }
  assert (HtoB : dispatched_to m1 rB h = 0).
  { rewrite Hto, dispatched_events_other; auto. }
  assert (Hw1 : weight m1 h = 0).
  { unfold m1. rewrite weight_registerReviver, Hkeep. simpl.
    unfold dormant, arriving in *. lia. }
  assert (Hn1 : h < nextHandle m1) by (rewrite Fh; exact Hn).
  change (run C [DoRegisterReviver rA; DoRegisterReviver rB] m)
    with (run C [DoRegisterReviver rB] m1).
  set (m2 := run C [DoRegisterReviver rB] m1).
  destruct (settled_step C (DoRegisterReviver rB) m1 h Hw1 Hn1)
    as (Hw2 & Hn2 & Hd2).
  change (step C (DoRegisterReviver rB) m1) with m2 in Hw2, Hn2, Hd2.
  rewrite !(settled_run C future m2 h Hw2 Hn2), !Hd2.
  unfold weight in Hw2. repeat split; auto; lia.
Qed.

(** Only registration and deregistration change the registry. *)
Lemma revivers_step a m :
  _revivers (step C a m)
  = match a with
    | DoRegisterReviver r => set_add Nat.eq_dec r (_revivers m)
    | DoDispose (toDisposable r) => set_remove Nat.eq_dec r (_revivers m)
    | _ => _revivers m
    end.
Proof.
  destruct a as [vt name so o loc ev | x g f | vt pid name icon st o loc
                | r | [r] | x | x | p | ]; simpl.
  - reflexivity.
  - unfold exec, revealWebview.
    destruct (same_group (webview_group x) (id g)); [reflexivity|].
    unfold bind, call_getGroup.
    now destruct (answer_getGroup C (world m) (webview_group x)).
  - reflexivity.
  - pose proof (registerReviver_fields C r m) as F. cbv zeta in F.
    now destruct F as (_ & Fr & _).
  - reflexivity.
  - unfold exec, canRevive.
    pose proof (canRevive_over_outcome C x (_revivers m) m) as H.
    cbv zeta in H. now destruct H as (_ & R & _).
  - unfold exec, populate.
    destruct (existsb (Nat.eqb (handle x)) (unpopulated m)); [|reflexivity].
    unfold revival_callback, bind, tryRevive.
    match goal with |- context [tryRevive_over C ?rs x ?m0] =>
      pose proof (tryRevive_over_outcome C x rs m0) as H;
      destruct (tryRevive_over C rs x m0) as [t m1] end.
    cbv zeta in H. simpl in H. destruct H as (_ & R & _).
    destruct t; simpl; exact R.
  - reflexivity.
  - rewrite tick_exec. destruct (microtasks m) as [|k rest]; [reflexivity|].
    now destruct (run_continuation_frame C k (with_microtasks C rest m))
      as (_ & _ & R & _).
Qed.

Lemma revivers_NoDup acts : forall m,
  NoDup (_revivers m) -> NoDup (_revivers (run C acts m)).
Proof.
  induction acts as [|a acts IH]; intros m H; simpl; auto.
  apply IH. rewrite revivers_step.
  destruct a as [| | | r | [r] | | | | ]; auto.
  - now apply set_add_nodup.
  - now apply set_remove_nodup.
Qed.

Lemma registerReviver_eval reviver m :
  eval (registerReviver C reviver) m = toDisposable reviver.
Proof.
  unfold eval, registerReviver, bind.
  destruct (drain C reviver m) as [t m1].
  now destruct (forEachM (dispatch C reviver) t m1).
Qed.

(** C8.  In any state the service reaches after a reviver was registered,
    invoking the handle that registration returned takes the reviver out
    of the registry and leaves every other reviver in; a [canRevive] that
    follows does not ask the reviver; the revival queue, the continuations
    parked on promises, those ready to run, and the log of calls are as
    they were. *)
Theorem deregistration_leaves_queue_alone
    (w : World C) (before after : list Action) (reviver : WebviewReviver) :
  let m0 := run C before (init C w) in
  let d := eval (registerReviver C reviver) m0 in
  let m := run C after (exec (registerReviver C reviver) m0) in
  let m' := exec (dispose C d) m in
  ~ In reviver (_revivers m')
  /\ (forall r, r <> reviver -> (In r (_revivers m') <-> In r (_revivers m)))
  /\ (forall webview r x,
        In (EvCanRevive r x)
           (calls_since m' (exec (canRevive C webview) m')) ->
        r <> reviver)
  /\ _awaitingRevival m' = _awaitingRevival m
  /\ awaiting m' = awaiting m
  /\ microtasks m' = microtasks m
  /\ calls m' = calls m.
Proof.
  cbv zeta. rewrite registerReviver_eval.
  set (m := run C after _).
  assert (Hnd : NoDup (_revivers m)).
  { unfold m.
    change (exec (registerReviver C reviver) (run C before (init C w)))
      with (step C (DoRegisterReviver reviver) (run C before (init C w))).
    apply revivers_NoDup. rewrite revivers_step.
    apply set_add_nodup. apply revivers_NoDup. constructor. }
  assert (Hout : ~ In reviver (_revivers (exec (dispose C (toDisposable reviver)) m))).
  { unfold exec, dispose. simpl. intros H.
    apply set_remove_iff in H; [|exact Hnd]. now destruct H. }
  split; [exact Hout|]. split; [|split].
  - intros r Hr. unfold exec, dispose. simpl.
    rewrite set_remove_iff by exact Hnd. tauto.
  - intros webview r x Hin ->.
    unfold exec at 2 in Hin. unfold canRevive in Hin.
    set (m' := exec (dispose C (toDisposable reviver)) m) in *.
    pose proof (canRevive_over_outcome C webview (_revivers m') m') as H.
    cbv zeta in H. destruct H as ((asked & Hc & Hi) & _).
    unfold calls_since in Hin. rewrite Hc, skipn_length_app in Hin.
    unfold probe_all in Hin. apply in_map_iff in Hin.
    destruct Hin as (r & E & Hr). injection E as -> _.
    apply Hout. now apply Hi.
  - repeat split.
Qed.

End Lifecycle.

(** * The theorems at the concrete run *)

Section Instances.

Import Scenario.
Import String.StringSyntax.
Local Open Scope string_scope.

Example restore_builds_preview :
  eval (reviveWebview plugins "markdown.preview" 7%Z "Preview" None
          (opaque "{}") noOptions None) (init plugins 0) = preview.
Proof. reflexivity. Qed.

Example parked_has_one_entry :
  _awaitingRevival (parked plugins 0) = [{| input := preview; resolve := 0 |}].
Proof. reflexivity. Qed.

(** The specification's example: a reviver for another view type leaves
    the entry queued and is not asked to reconstruct; the reviver for
    ["markdown.preview"] empties the queue and is asked once. *)
Example other_type_then_preview :
  let m1 := run plugins [DoRegisterReviver 0] (parked plugins 0) in
  let m2 := run plugins [DoRegisterReviver 1] m1 in
  length (_awaitingRevival m1) = 1
  /\ dispatched_to m1 0 0 = 0
  /\ length (_awaitingRevival m2) = 0
  /\ dispatched_to m2 1 0 = 1
  /\ filter (is_revive 0) (calls m2) = [EvReviveWebview 1 preview 1].
Proof. vm_compute. repeat split. Qed.

(** With a reviver that answers differently in the two passes the entry
    is handed to the reviver and stays queued all the same, or leaves the
    queue without being handed to anyone. *)
Example fickle_reviver_keeps_dispatched_entry :
  let m := exec (registerReviver fickle 0) (parked fickle 0) in
  _awaitingRevival (parked fickle 0) = [{| input := preview; resolve := 0 |}]
  /\ _awaitingRevival m = [{| input := preview; resolve := 0 |}]
  /\ dispatched m 0 = 1.
Proof. vm_compute. repeat split. Qed.

Example fickle_reviver_drops_entry :
  let m := exec (registerReviver fickle 0) (parked fickle 1) in
  _awaitingRevival (parked fickle 1) = [{| input := preview; resolve := 0 |}]
  /\ _awaitingRevival m = []
  /\ dispatched m 0 = 0.
Proof. vm_compute. repeat split. Qed.

Lemma registerReviver_drains_matching_witness :
  (forall w e, In e (_awaitingRevival parked_preview) ->
     answer_canRevive plugins w 1 (input e) = accepts 1 (input e))
  /\ _awaitingRevival (exec (registerReviver plugins 1) parked_preview) = []
  /\ calls_since parked_preview (exec (registerReviver plugins 1) parked_preview)
     = [EvCanRevive 1 preview; EvCanRevive 1 preview;
        EvReviveWebview 1 preview 1].
Proof.
  assert (H : forall w e, In e (_awaitingRevival parked_preview) ->
                answer_canRevive plugins w 1 (input e) = accepts 1 (input e))
    by (intros; reflexivity).
  split; [exact H|].
  pose proof (registerReviver_drains_matching plugins 1 parked_preview
                (accepts 1) H) as T.
  cbv zeta in T. destruct T as (Tq & Tc & _).
  split; [exact Tq | exact Tc].
Defined.

Lemma revealWebview_moves_from_current_group_witness :
  webview_group shown <> Some (id group2)
  /\ calls_since (init plugins 0)
       (exec (revealWebview plugins shown group2 true) (init plugins 0))
     = [EvGetGroup (Some 1%Z); EvMoveEditor group1 shown group2 true].
Proof.
  assert (H : webview_group shown <> Some (id group2)) by discriminate.
  split; [exact H|].
  exact (proj1 (revealWebview_moves_from_current_group plugins
                  (init plugins 0) shown group2 true H)).
Defined.

(** C2 fails as worded: the panel is in group 1, the only group with a
    live view; the target, group 2, has none; the panel is moved all the
    same. *)
Lemma reveal_resolves_target_group_counterexample :
  ~ reveal_resolves_target_group.
Proof.
  intros H.
  assert (Hother : webview_group shown <> Some (id group2)) by discriminate.
  specialize (H one_live_group (init one_live_group tt) shown group2 true
                Hother).
  vm_compute in H. discriminate H.
Qed.

Lemma queued_revival_dispatched_once_witness :
  deterministic_checks plugins
  /\ (let m := run plugins [restore; Populate preview; Tick;
                            DoRegisterReviver 0] (init plugins 0) in
      _awaitingRevival m = [{| input := preview; resolve := 0 |}]
      /\ fst (drain plugins 1 m) = [{| input := preview; resolve := 0 |}]
      /\ (forall h, queued m h <= 1)
      /\ (forall h, dispatched m h <= 1)
      /\ (forall h, 1 <= queued m h -> dispatched m h = 0)
      /\ (forall e, In e (fst (drain plugins 1 m)) ->
            queued (snd (drain plugins 1 m)) (handle (input e)) = 0)).
Proof.
  assert (H : deterministic_checks plugins) by (intros r x w w'; reflexivity).
  split; [exact H|].
  pose proof (queued_revival_dispatched_once plugins 0
                [restore; Populate preview; Tick; DoRegisterReviver 0])
    as T.
  cbv zeta in T. destruct T as (Tq & T). destruct (T H) as (Td & Tn & Tr).
  destruct (Tr 1) as (_ & _ & Te & _).
  cbv zeta. split; [reflexivity|]. split; [reflexivity|].
  split; [exact Tq|]. split; [exact Td|]. split; [exact Tn | exact Te].
Defined.

(** C1 fails as worded: a reviver that refuses the queued panel in the
    first pass and accepts it in the second has the entry taken out of
    the queue and no reconstruction dispatched for it. *)
Lemma registration_dispatches_what_it_removes_counterexample :
  ~ registration_dispatches_what_it_removes.
Proof.
  intros H.
  specialize (H fickle 0 (parked fickle 1)
                {| input := preview; resolve := 0 |}).
  assert (Hin : In {| input := preview; resolve := 0 |}
                   (_awaitingRevival (parked fickle 1)))
    by (left; reflexivity).
  specialize (H Hin). cbv zeta in H.
  assert (Hq : _awaitingRevival (exec (registerReviver fickle 0)
                                   (parked fickle 1)) = [])
    by reflexivity.
  assert (Hc : calls_since (parked fickle 1)
                 (exec (registerReviver fickle 0) (parked fickle 1))
               = [EvCanRevive 0 preview; EvCanRevive 0 preview])
    by reflexivity.
  rewrite Hq, Hc in H.
  destruct H as (p & Hp); [intros [] |].
  destruct Hp as [Hp|[Hp|[]]]; discriminate Hp.
Qed.

(** C3 fails as worded: a reviver that accepts the queued panel in the
    first pass and refuses it in the second is asked to reconstruct it
    while its entry stays queued, and the next registration of such a
    reviver asks again. *)
Lemma revival_never_dispatched_twice_counterexample :
  ~ revival_never_dispatched_twice.
Proof.
  intros H.
  specialize (H fickle 0
                [restore; Populate preview; Tick;
                 DoRegisterReviver 0; DoRegisterReviver 1] 0).
  assert (E : dispatched
                (run fickle [restore; Populate preview; Tick;
                             DoRegisterReviver 0; DoRegisterReviver 1]
                   (init fickle 0)) 0 = 2) by reflexivity.
  rewrite E in H. lia.
Qed.

Example fickle_reviver_dispatched_twice_while_queued :
  let m := run fickle [restore; Populate preview; Tick;
                       DoRegisterReviver 0; DoRegisterReviver 1]
             (init fickle 0) in
  queued m 0 = 1 /\ dispatched m 0 = 2
  /\ filter (is_revive 0) (calls m)
     = [EvReviveWebview 0 preview 1; EvReviveWebview 1 preview 2].
Proof. vm_compute. repeat split. Qed.

Lemma canRevive_iff_some_reviver_accepts_witness :
  (forall r w, In r (_revivers two_revivers) ->
     answer_canRevive plugins w r preview = accepts r preview)
  /\ (eval (canRevive plugins preview) two_revivers = true
      <-> exists r, In r (_revivers two_revivers) /\ accepts r preview = true).
Proof.
  assert (H : forall r w, In r (_revivers two_revivers) ->
                answer_canRevive plugins w r preview = accepts r preview)
    by (intros; reflexivity).
  split; [exact H|].
  exact (proj1 (canRevive_iff_some_reviver_accepts plugins two_revivers preview
                  (fun r => accepts r preview) H)).
Defined.

Lemma tryRevive_first_match_wins_witness :
  (forall r w, In r (_revivers two_revivers) ->
     answer_canRevive plugins w r preview = accepts r preview)
  /\ eval (tryRevive plugins preview) two_revivers = After 0 true
  /\ calls_since two_revivers (exec (tryRevive plugins preview) two_revivers)
     = [EvCanRevive 0 preview; EvCanRevive 1 preview;
        EvReviveWebview 1 preview 0].
Proof.
  assert (H : forall r w, In r (_revivers two_revivers) ->
                answer_canRevive plugins w r preview = accepts r preview)
    by (intros; reflexivity).
  split; [exact H|].
  pose proof (tryRevive_first_match_wins plugins two_revivers preview
                (fun r => accepts r preview) H) as T.
  cbv zeta in T. destruct T as (T & _).
  apply (T [0] 1 []).
  - reflexivity.
  - intros r' [<-|[]]. reflexivity.
  - reflexivity.
Defined.

Lemma first_registered_reviver_wins_witness :
  In {| input := preview; resolve := 0 |} (_awaitingRevival parked_preview)
  /\ accounted_for parked_preview (handle preview)
  /\ (forall w, answer_canRevive plugins w 1 preview = true)
  /\ (forall w, answer_canRevive plugins w 2 preview = true)
  /\ 1 <> 2
  /\ (let m2 := run plugins [DoRegisterReviver 1; DoRegisterReviver 2]
                  parked_preview in
      let m' := run plugins [Fulfil 1; Tick; DoRegisterReviver 2] m2 in
      dispatched_to m2 1 (handle preview) = 1
      /\ dispatched_to m2 2 (handle preview) = 0
      /\ queued m2 (handle preview) = 0
      /\ dispatched_to m' 1 (handle preview) = 1
      /\ dispatched_to m' 2 (handle preview) = 0).
Proof.
  assert (Hq : In {| input := preview; resolve := 0 |}
                  (_awaitingRevival parked_preview)) by (left; reflexivity).
  assert (Hacc : accounted_for parked_preview (handle preview))
    by (vm_compute; lia).
  assert (HA : forall w, answer_canRevive plugins w 1 preview = true)
    by (intros; reflexivity).
  assert (HB : forall w, answer_canRevive plugins w 2 preview = true)
    by (intros; reflexivity).
  assert (Hneq : 1 <> 2) by discriminate.
  repeat (split; [assumption|]).
  exact (first_registered_reviver_wins plugins parked_preview preview 0 1 2
           [Fulfil 1; Tick; DoRegisterReviver 2] Hq Hacc HA HB Hneq).
Defined.

Lemma revealWebview_same_group_reopens_witness :
  webview_group shown = Some (id group1)
  /\ calls_since (init plugins 0)
       (exec (revealWebview plugins shown group1 true) (init plugins 0))
     = [EvOpenEditor shown {| pinned := None; opt_preserveFocus := true |}
          (Some (TargetId 1%Z))].
Proof.
  assert (H : webview_group shown = Some (id group1)) by reflexivity.
  split; [exact H|].
  exact (proj1 (revealWebview_same_group_reopens plugins (init plugins 0)
                  shown group1 true H)).
Defined.

Lemma registerReviver_passes_agree_witness :
  (forall x w w',
     answer_canRevive plugins w 1 x = answer_canRevive plugins w' 1 x)
  /\ (forall e w,
        In e (_awaitingRevival (exec (registerReviver plugins 1) parked_preview)) ->
        answer_canRevive plugins w 1 (input e) = false).
Proof.
  assert (H : forall x w w',
            answer_canRevive plugins w 1 x = answer_canRevive plugins w' 1 x)
    by (intros; reflexivity).
  split; [exact H|].
  exact (proj2 (proj2 (registerReviver_passes_agree plugins 1 parked_preview H))).
Defined.

End Instances.

(** * More on the registry *)

Section Registry.

Variable C : Collaborators.

Lemma tryRevive_over_follows webview : forall rs m,
  (fst (canRevive_over C rs webview m) = false ->
   tryRevive_over C rs webview m
   = (Now false, snd (canRevive_over C rs webview m)))
  /\ (fst (canRevive_over C rs webview m) = true ->
      exists pre r post,
        rs = pre ++ r :: post
        /\ calls (snd (canRevive_over C rs webview m))
           = calls m ++ probe_all pre webview ++ [EvCanRevive r webview]
        /\ nextPromise (snd (canRevive_over C rs webview m)) = nextPromise m
        /\ tryRevive_over C rs webview m
           = (After (nextPromise m) true,
              with_nextPromise C (S (nextPromise m))
                (with_log C (EvReviveWebview r webview (nextPromise m))
                   (snd (canRevive_over C rs webview m))))).
Proof.
  induction rs as [|r rs IH]; intros m; simpl.
  - split; [reflexivity | discriminate].
  - unfold bind, call_canRevive, call_reviveWebview. simpl.
    destruct (answer_canRevive C (world m) r webview) eqn:E; simpl.
    + split; [discriminate|]. intros _. exists [], r, rs. simpl.
      repeat split.
    + destruct (IH (with_log C (EvCanRevive r webview) m)) as [IHf IHt].
      split; [exact IHf|]. intros Ht.
      destruct (IHt Ht) as (pre & r0 & post & -> & Hc & Hp & Hrun).
      exists (r :: pre), r0, post. simpl in *.
      rewrite Hc, <- app_assoc. repeat split; auto.
Qed.

(** X1.  [tryRevive] decides as [canRevive] does, on the same checks:
    where [canRevive] answers false, [tryRevive] fails and leaves the
    machine as [canRevive] leaves it; where [canRevive] answers true,
    [tryRevive] asks for the reconstruction by the very reviver at which
    [canRevive] stopped, and that is all it does beyond the checks. *)
Theorem tryRevive_follows_canRevive
    (m : Machine C) (webview : WebviewEditorInput) :
  let mc := exec (canRevive C webview) m in
  (eval (canRevive C webview) m = false ->
   eval (tryRevive C webview) m = Now false
   /\ exec (tryRevive C webview) m = mc)
  /\ (eval (canRevive C webview) m = true ->
      exists pre r post,
        _revivers m = pre ++ r :: post
        /\ calls_since m mc = probe_all pre webview ++ [EvCanRevive r webview]
        /\ eval (tryRevive C webview) m = After (nextPromise m) true
        /\ calls_since mc (exec (tryRevive C webview) m)
           = [EvReviveWebview r webview (nextPromise m)]).
Proof.
  cbv zeta. unfold eval, exec, canRevive, tryRevive.
  destruct (tryRevive_over_follows webview (_revivers m) m) as [Hf Ht].
  split.
  - intros H. rewrite (Hf H). split; reflexivity.
  - intros H. destruct (Ht H) as (pre & r & post & E & Hc & Hp & Hrun).
    exists pre, r, post. rewrite Hrun. simpl.
    unfold calls_since. rewrite Hc.
    split; [exact E|]. split; [apply skipn_length_app|].
    split; [reflexivity|].
    rewrite <- Hc. apply skipn_length_app.
Qed.

Lemma set_add_present (r : nat) : forall l,
  In r l -> set_add Nat.eq_dec r l = l.
Proof.
  induction l as [|y l IH]; simpl; intros H; [destruct H|].
  destruct (Nat.eq_dec r y) as [_|Hne]; [reflexivity|].
  f_equal. apply IH. destruct H as [H|H]; [congruence | exact H].
Qed.

Lemma set_add_absent (r : nat) : forall l,
  ~ In r l -> set_add Nat.eq_dec r l = l ++ [r].
Proof.
  induction l as [|y l IH]; simpl; intros H; [reflexivity|].
  destruct (Nat.eq_dec r y) as [E|_]; [exfalso; apply H; now left|].
  f_equal. apply IH. intros Hin. apply H. now right.
Qed.

Lemma set_remove_last (r : nat) : forall l,
  ~ In r l -> set_remove Nat.eq_dec r (l ++ [r]) = l.
Proof.
  induction l as [|y l IH]; simpl; intros H.
  - destruct (Nat.eq_dec r r); [reflexivity | congruence].
  - destruct (Nat.eq_dec r y) as [E|_]; [exfalso; apply H; now left|].
    f_equal. apply IH. intros Hin. apply H. now right.
Qed.

Lemma registerReviver_registry reviver (m : Machine C) :
  _revivers (exec (registerReviver C reviver) m)
  = set_add Nat.eq_dec reviver (_revivers m).
Proof.
  pose proof (registerReviver_fields C reviver m) as F. cbv zeta in F.
  now destruct F as (_ & Fr & _).
Qed.

(** X2.  The registry keeps the order of first registration, which is
    the order in which [canRevive] and [tryRevive] ask: a reviver not yet
    registered goes to the end, and registering a reviver again leaves
    the registry, and so its place in it, as it was. *)
Theorem registerReviver_keeps_first_place
    (m : Machine C) (reviver : WebviewReviver) :
  let m' := exec (registerReviver C reviver) m in
  (In reviver (_revivers m) -> _revivers m' = _revivers m)
  /\ (~ In reviver (_revivers m) -> _revivers m' = _revivers m ++ [reviver])
  /\ _revivers (exec (registerReviver C reviver) m') = _revivers m'.
Proof.
  cbv zeta. rewrite !registerReviver_registry.
  split; [apply set_add_present|]. split; [apply set_add_absent|].
  apply set_add_present. apply set_add_iff. now left.
Qed.

Lemma dispose_registry reviver (m : Machine C) :
  _revivers (exec (dispose C (toDisposable reviver)) m)
  = set_remove Nat.eq_dec reviver (_revivers m).
Proof. reflexivity. Qed.

(** X3.  In any state the service can reach: the handle of a first
    registration, invoked right away, puts the registry back as it was;
    and after a reviver has been registered twice, invoking one of the
    two handles leaves it unregistered, the other handle notwithstanding;
    a handle invoked a second time does nothing. *)
Theorem dispose_undoes_registration
    (w : World C) (acts : list Action) (reviver : WebviewReviver) :
  let m := run C acts (init C w) in
  let d1 := eval (registerReviver C reviver) m in
  let m1 := exec (registerReviver C reviver) m in
  let d2 := eval (registerReviver C reviver) m1 in
  let m2 := exec (registerReviver C reviver) m1 in
  (~ In reviver (_revivers m) ->
   _revivers (exec (dispose C d1) m1) = _revivers m)
  /\ ~ In reviver (_revivers (exec (dispose C d1) m2))
  /\ ~ In reviver (_revivers (exec (dispose C d2) m2))
  /\ _revivers (exec (dispose C d1) (exec (dispose C d1) m2))
     = _revivers (exec (dispose C d1) m2).
Proof.
  cbv zeta. rewrite !registerReviver_eval.
  set (m := run C acts (init C w)).
  assert (Hnd : NoDup (_revivers m))
    by (apply revivers_NoDup; constructor).
  rewrite !dispose_registry, !registerReviver_registry.
  assert (Hnd1 : NoDup (set_add Nat.eq_dec reviver (_revivers m)))
    by now apply set_add_nodup.
  assert (Hnd2 : NoDup (set_add Nat.eq_dec reviver
                          (set_add Nat.eq_dec reviver (_revivers m))))
    by now apply set_add_nodup.
  assert (Hgone : ~ In reviver
                    (set_remove Nat.eq_dec reviver
                       (set_add Nat.eq_dec reviver
                          (set_add Nat.eq_dec reviver (_revivers m))))).
  { intros H. apply set_remove_iff in H; [|exact Hnd2]. now destruct H. }
  split; [|split; [exact Hgone | split; [exact Hgone|]]].
  - intros Hout. rewrite set_add_absent by exact Hout.
    now apply set_remove_last.
  - clear - Hgone.
    set (l := set_remove Nat.eq_dec reviver _) in *.
    induction l as [|y l IH]; simpl; [reflexivity|].
    destruct (Nat.eq_dec reviver y) as [E|_].
    + exfalso. apply Hgone. now left.
    + f_equal. apply IH. intros H. apply Hgone. now right.
Qed.

End Registry.

(** * Registration with any reviver *)

Section AnyReviver.

Variable C : Collaborators.

Lemma filterM_subseq {A : Type} (f : A -> M C bool) : forall l m,
  subseq (fst (filterM f l m)) l.
Proof.
  induction l as [|x l IH]; intros m; simpl.
  - constructor.
  - unfold bind. destruct (f x m) as [b m1]. specialize (IH m1).
    destruct (filterM f l m1) as [ys m2]. simpl in *.
    destruct b; now constructor.
Qed.

Lemma subseq_incl {A : Type} (l l' : list A) :
  subseq l l' -> incl l l'.
Proof.
  induction 1 as [|x l l' _ IH|x l l' _ IH]; intros y Hy.
  - exact Hy.
  - right. now apply IH.
  - destruct Hy as [<-|Hy]; [now left | right; now apply IH].
Qed.

Lemma subseq_length {A : Type} (l l' : list A) :
  subseq l l' -> length l <= length l'.
Proof. induction 1; simpl; lia. Qed.

Lemma dispatched_events_In reviver r x p : forall l p0,
  In (EvReviveWebview r x p) (dispatched_events reviver l p0) ->
  r = reviver /\ exists e, In e l /\ input e = x.
Proof.
  induction l as [|e l IH]; intros p0; simpl; [tauto|].
  intros [H|H].
  - inversion H; subst. split; [reflexivity|]. exists e. auto.
  - destruct (IH _ H) as (-> & e' & He' & Hx). split; [reflexivity|].
    exists e'. auto.
Qed.

Lemma dispatched_events_all reviver : forall l p0,
  length (filter is_reconstruction (dispatched_events reviver l p0))
  = length l
  /\ filter is_completion (dispatched_events reviver l p0) = [].
Proof.
  induction l as [|e l IH]; intros p0; simpl; [split; reflexivity|].
  destruct (IH (S p0)) as [H1 H2]. rewrite H1, H2. split; reflexivity.
Qed.

Lemma probes_plain reviver l :
  filter is_reconstruction (probes reviver l) = []
  /\ filter is_completion (probes reviver l) = [].
Proof. induction l; simpl; auto. Qed.

Lemma probes_In reviver l e :
  In e (probes reviver l) -> exists y, e = EvCanRevive reviver (input y).
Proof.
  unfold probes. intros H. apply in_map_iff in H.
  destruct H as (y & <- & _). now exists y.
Qed.

(** X4.  Whatever a reviver's capability check answers, and even if it
    answers differently from one call to the next, registering the
    reviver only ever shortens the revival queue: the entries left are
    entries of the old queue in their old order, the reconstructions
    asked for are all for panels of the old queue and go to the reviver
    being registered, and no completion signal is resolved by the
    registration itself. *)
Theorem registerReviver_only_takes_queued
    (reviver : WebviewReviver) (m : Machine C) :
  let m' := exec (registerReviver C reviver) m in
  subseq (_awaitingRevival m') (_awaitingRevival m)
  /\ length (_awaitingRevival m') <= length (_awaitingRevival m)
  /\ (forall r x p,
        In (EvReviveWebview r x p) (calls_since m m') ->
        r = reviver /\ exists e, In e (_awaitingRevival m) /\ input e = x)
  /\ length (filter is_reconstruction (calls_since m m'))
     <= length (_awaitingRevival m)
  /\ filter is_completion (calls_since m m') = [].
Proof.
  cbv zeta.
  pose proof (registerReviver_fields C reviver m) as F. cbv zeta in F.
  destruct F as (Fc & _ & Fq & _).
  assert (Hkeep : subseq (_awaitingRevival (exec (registerReviver C reviver) m))
                    (_awaitingRevival m)).
  { rewrite Fq. pose proof (drain_exec C reviver m) as D. cbv zeta in D.
    rewrite D. simpl. apply filterM_subseq. }
  assert (Htake : subseq (fst (drain C reviver m)) (_awaitingRevival m)).
  { rewrite drain_eval. apply filterM_subseq. }
  assert (Hsince : calls_since m (exec (registerReviver C reviver) m)
                   = probes reviver (_awaitingRevival m)
                     ++ probes reviver (_awaitingRevival m)
                     ++ dispatched_events reviver (fst (drain C reviver m))
                          (nextPromise m)).
  { unfold calls_since. rewrite Fc. apply skipn_length_app. }
  rewrite Hsince.
  split; [exact Hkeep|]. split; [now apply subseq_length|]. split; [|split].
  - intros r x p Hin.
    apply in_app_or in Hin. destruct Hin as [Hin|Hin].
    { apply probes_In in Hin. destruct Hin as (y & Hy). discriminate. }
    apply in_app_or in Hin. destruct Hin as [Hin|Hin].
    { apply probes_In in Hin. destruct Hin as (y & Hy). discriminate. }
    destruct (dispatched_events_In _ _ _ _ _ _ Hin) as (-> & e & He & Hx).
    split; [reflexivity|]. exists e. split; [|exact Hx].
    now apply (subseq_incl _ _ Htake).
  - rewrite !filter_app, !length_app.
    destruct (probes_plain reviver (_awaitingRevival m)) as [Hp _].
    destruct (dispatched_events_all reviver (fst (drain C reviver m))
                (nextPromise m)) as [Hd _].
    rewrite Hp, Hd. simpl. now apply subseq_length.
  - rewrite !filter_app.
    destruct (probes_plain reviver (_awaitingRevival m)) as [_ Hp].
    destruct (dispatched_events_all reviver (fst (drain C reviver m))
                (nextPromise m)) as [_ Hd].
    now rewrite Hp, Hd.
Qed.

End AnyReviver.

(** * Completion is only ever an answer to a reviver *)

Section Completion.

Variable C : Collaborators.

Lemma probe_all_plain webview rs :
  filter is_completion (probe_all rs webview) = [].
Proof. induction rs; simpl; auto. Qed.

Lemma silent_step a (m : Machine C) :
  is_fulfil a = false ->
  filter is_completion (calls m) = [] ->
  forallb resumes_unrevived_any (microtasks m) = true ->
  filter is_completion (calls (step C a m)) = []
  /\ forallb resumes_unrevived_any (microtasks (step C a m)) = true.
Proof.
  intros Ha Hc Hm.
  destruct a as [vt name so o loc ev | x g f | vt pid name icon st o loc
                | r | d | x | x | p | ]; simpl in *; try discriminate.
  - unfold exec, createWebview, bind, createInstance, emit. simpl.
    rewrite !filter_app, Hc. simpl. auto.
  - unfold exec, revealWebview.
    destruct (same_group (webview_group x) (id g)).
    + simpl. rewrite filter_app, Hc. auto.
    + unfold bind, call_getGroup.
      destruct (answer_getGroup C (world m) (webview_group x)); simpl;
        rewrite !filter_app, Hc; auto.
  - unfold exec, reviveWebview, bind, createInstance. simpl.
    rewrite filter_app, Hc. auto.
  - pose proof (registerReviver_fields C r m) as F. cbv zeta in F.
    destruct F as (Fc & _ & _ & _ & Fm & _).
    rewrite Fc, Fm, !filter_app, Hc.
    destruct (probes_plain r (_awaitingRevival m)) as [_ Hp].
    destruct (dispatched_events_all r (fst (drain C r m)) (nextPromise m))
      as [_ Hd].
    rewrite Hp, Hd. auto.
  - destruct d. auto.
  - unfold exec, canRevive.
    pose proof (canRevive_over_outcome C x (_revivers m) m) as H.
    cbv zeta in H. destruct H as ((asked & Hcalls & _) & _ & _ & _ & T & _).
    rewrite Hcalls, T, filter_app, Hc, probe_all_plain. auto.
  - unfold exec, populate.
    destruct (existsb (Nat.eqb (handle x)) (unpopulated m)); [|auto].
    unfold revival_callback, bind, tryRevive.
    match goal with |- context [tryRevive_over C ?rs x ?m0] =>
      pose proof (tryRevive_over_outcome C x rs m0) as H;
      destruct (tryRevive_over C rs x m0) as [t m1] end.
    cbv zeta in H. simpl in H.
    destruct H as ((asked & H) & _ & _ & _ & T & _).
    destruct H as [(-> & Hcalls & _) | (r & _ & -> & Hcalls & _)]; simpl.
    + rewrite Hcalls, T, filter_app, Hc, probe_all_plain, forallb_app, Hm.
      auto.
    + rewrite Hcalls, T, !filter_app, Hc, probe_all_plain. auto.
  - rewrite tick_exec. destruct (microtasks m) as [|k rest] eqn:E.
    + rewrite E. auto.
    + simpl in Hm. apply andb_true_iff in Hm. destruct Hm as [Hk Hrest].
      destruct k as [x [|]|q]; try discriminate.
      unfold exec. simpl. auto.
Qed.

(** X5.  From the start of the service, as long as no promise of a
    reviver has been fulfilled, no completion is signalled: no resolver
    of a queue entry is called and no callback returns as revived,
    whatever is created, registered, deregistered, asked, populated or
    run. *)
Theorem no_completion_without_fulfilment
    (w : World C) (acts : list Action)
    (Hnone : forallb (fun a => negb (is_fulfil a)) acts = true) :
  filter is_completion (calls (run C acts (init C w))) = [].
Proof.
  assert (H : forall acts (m : Machine C),
            forallb (fun a => negb (is_fulfil a)) acts = true ->
            filter is_completion (calls m) = [] ->
            forallb resumes_unrevived_any (microtasks m) = true ->
            filter is_completion (calls (run C acts m)) = []).
  { clear. induction acts as [|a acts IH]; intros m Ha Hc Hm; simpl; auto.
    simpl in Ha. apply andb_true_iff in Ha. destruct Ha as [Ha Hrest].
    apply negb_true_iff in Ha.
    destruct (silent_step a m Ha Hc Hm) as [Hc' Hm'].
    now apply IH. }
  now apply H.
Qed.

End Completion.

(** * A revived panel from its first use to its completion *)

Section Revival.

Variable C : Collaborators.

(** The callback on a panel that every registered reviver refuses. *)
Lemma populate_refused (m : Machine C) webview :
  existsb (Nat.eqb (handle webview)) (unpopulated m) = true ->
  (forall r w, In r (_revivers m) ->
     answer_canRevive C w r webview = false) ->
  let m1 := exec (populate C webview) m in
  calls m1 = calls m ++ probe_all (_revivers m) webview
  /\ microtasks m1 = microtasks m ++ [ResumeCallback webview false]
  /\ _awaitingRevival m1 = _awaitingRevival m
  /\ awaiting m1 = awaiting m
  /\ _revivers m1 = _revivers m
  /\ unpopulated m1 = remove Nat.eq_dec (handle webview) (unpopulated m)
  /\ nextHandle m1 = nextHandle m
  /\ nextPromise m1 = nextPromise m.
Proof.
  intros Hen Href. cbv zeta. unfold exec, populate. rewrite Hen.
  set (m0 := with_unpopulated C
               (remove Nat.eq_dec (handle webview) (unpopulated m)) m).
  unfold revival_callback, bind, tryRevive.
  change (_revivers m0) with (_revivers m).
  pose proof (tryRevive_over_refused C webview (fun _ => false)
                (_revivers m) [] m0) as H.
  rewrite app_nil_r in H. rewrite H; [|exact Href | reflexivity].
  simpl.
  destruct (log_all_frame C (probe_all (_revivers m) webview) m0)
    as (R & Q & A & T & U & N & P).
  rewrite log_all_calls, R, Q, A, T, U, N, P. repeat split.
Qed.


(** The callback resumed with [didRevive] false: the panel is pushed on
    the queue with a new promise. *)
Lemma tick_enqueues (m : Machine C) webview rest :
  microtasks m = ResumeCallback webview false :: rest ->
  let m1 := exec (tick C) m in
  _awaitingRevival m1
  = _awaitingRevival m ++ [{| input := webview; resolve := nextPromise m |}]
  /\ microtasks m1 = rest
  /\ calls m1 = calls m
  /\ awaiting m1 = awaiting m
  /\ _revivers m1 = _revivers m
  /\ unpopulated m1 = unpopulated m
  /\ nextHandle m1 = nextHandle m
  /\ nextPromise m1 = S (nextPromise m).
Proof.
  intros Hm. cbv zeta. rewrite tick_exec, Hm. unfold exec. simpl.
  repeat split.
Qed.




(** A reviver that accepts a panel takes its one entry off the queue and
    is asked once to reconstruct it, whatever it answers on other
    panels. *)
Lemma registerReviver_takes (m : Machine C) (e : PendingRevival) reviver :
  In e (_awaitingRevival m) ->
  queued m (handle (input e)) <= 1 ->
  (forall w, answer_canRevive C w reviver (input e) = true) ->
  let m' := exec (registerReviver C reviver) m in
  let h := handle (input e) in
  queued m' h = 0
  /\ In e (fst (drain C reviver m))
  /\ length (filter (is_revive h) (calls_since m m')) = 1
  /\ length (filter (is_revive_of reviver h) (calls_since m m')) = 1.
Proof.
  intros Hin Hq Hyes. cbv zeta. set (h := handle (input e)).
  assert (He : entry_of h e = true) by apply Nat.eqb_refl.
  pose proof (filter_has (entry_of h) _ e Hin He) as Hq1.
  unfold queued in Hq. fold h in Hq.
  assert (Hone : forall y, In y (_awaitingRevival m) ->
                           entry_of h y = true -> y = e)
    by (apply filter_single; auto).
  assert (Htake : filter (entry_of h) (fst (drain C reviver m))
                  = filter (entry_of h) (_awaitingRevival m)).
  { rewrite drain_eval.
    apply (filterM_select C (first_pass C reviver) (entry_of h) true).
    intros x m0 Hx Hs. rewrite (Hone x Hx Hs). simpl. apply Hyes. }
  assert (Hkeep : filter (entry_of h)
                    (_awaitingRevival (snd (drain C reviver m))) = []).
  { pose proof (drain_exec C reviver m) as D. cbv zeta in D. rewrite D.
    simpl.
    apply (filterM_select C (second_pass C reviver) (entry_of h) false).
    intros x m0 Hx Hs. rewrite (Hone x Hx Hs). simpl. now rewrite Hyes. }
  pose proof (registerReviver_fields C reviver m) as F. cbv zeta in F.
  destruct F as (Fc & _ & Fq & _).
  assert (Hs : calls_since m (exec (registerReviver C reviver) m)
               = probes reviver (_awaitingRevival m)
                 ++ probes reviver (_awaitingRevival m)
                 ++ dispatched_events reviver (fst (drain C reviver m))
                      (nextPromise m)).
  { unfold calls_since. rewrite Fc. apply skipn_length_app. }
  rewrite Hs. split; [|split; [|split]].
  - unfold queued. now rewrite Fq, Hkeep.
  - assert (H : In e (filter (entry_of h) (fst (drain C reviver m)))).
    { rewrite Htake. apply filter_In. auto. }
    apply filter_In in H. tauto.
  - rewrite !filter_app, !length_app, !probes_idle, dispatched_events_count,
      Htake. simpl. lia.
  - rewrite !filter_app, !length_app.
    rewrite (is_revive_of_is_revive reviver h _ (probes_idle reviver h _)).
    rewrite dispatched_events_count_to, Htake. simpl. lia.
Qed.

Lemma dormant_not_queued (m : Machine C) h :
  accounted_for m h ->
  existsb (Nat.eqb h) (unpopulated m) = true ->
  queued m h = 0 /\ dispatched m h = 0 /\ arriving m h = 0.
Proof.
  intros Hacc Hen. apply dormant_enabled in Hen.
  unfold accounted_for, weight, dormant in Hacc.
  destruct (h <? nextHandle m); lia.
Qed.

(** X7.  When the content of a revived panel is first needed and every
    registered reviver refuses it, the callback, once resumed, puts the
    panel at the end of the queue with a new promise, no reconstruction
    having been asked for.  A reviver registered after that and accepting
    the panel takes it off the queue and is asked once to reconstruct it;
    once that reviver's promise is fulfilled the promise of the entry is
    resolved. *)
Theorem deferred_revival_completes
    (m : Machine C) (webview : WebviewEditorInput) (reviver : WebviewReviver)
    (Hen : existsb (Nat.eqb (handle webview)) (unpopulated m) = true)
    (Hacc : accounted_for m (handle webview))
    (Hidle : microtasks m = [])
    (Href : forall r w, In r (_revivers m) ->
              answer_canRevive C w r webview = false)
    (Hyes : forall w, answer_canRevive C w reviver webview = true) :
  let m1 := run C [Populate webview; Tick] m in
  let m2 := exec (registerReviver C reviver) m1 in
  _awaitingRevival m1
  = _awaitingRevival m ++ [{| input := webview; resolve := nextPromise m |}]
  /\ calls_since m m1 = probe_all (_revivers m) webview
  /\ queued m2 (handle webview) = 0
  /\ length (filter (is_revive (handle webview)) (calls_since m1 m2)) = 1
  /\ exists p,
       In (EvReviveWebview reviver webview p) (calls_since m1 m2)
       /\ In (EvResolve (nextPromise m))
            (calls_since m2
               (exec (bind (fulfil C p) (fun _ => flush C)) m2)).
Proof.
  cbv zeta.
  destruct (dormant_not_queued m (handle webview) Hacc Hen)
    as (Hq0 & _ & _).
  pose proof (populate_refused m webview Hen Href) as P. cbv zeta in P.
  destruct P as (Pc & Pm & Pq & _ & _ & _ & _ & Pp).
  rewrite Hidle in Pm. simpl in Pm.
  change (run C [Populate webview; Tick] m)
    with (exec (tick C) (exec (populate C webview) m)).
  pose proof (tick_enqueues (exec (populate C webview) m) webview [] Pm)
    as T. cbv zeta in T.
  set (m1 := exec (tick C) (exec (populate C webview) m)) in *.
  destruct T as (Tq & _ & Tc & _).
  rewrite Pq, Pp in Tq. rewrite Pc in Tc.
  set (e := {| input := webview; resolve := nextPromise m |}) in *.
  assert (Hin : In e (_awaitingRevival m1))
    by (rewrite Tq; apply in_or_app; right; now left).
  assert (Hq1 : queued m1 (handle (input e)) <= 1).
  { unfold queued in *. rewrite Tq, filter_app, length_app. simpl.
    rewrite Hq0. destruct (entry_of (handle webview) e); simpl; lia. }
  pose proof (registerReviver_takes m1 e reviver Hin Hq1 Hyes) as R.
  cbv zeta in R. simpl in R. destruct R as (Rq & Rin & Rn & _).
  split; [exact Tq|]. split.
  { unfold calls_since. rewrite Tc. apply skipn_length_app. }
  split; [exact Rq|]. split; [exact Rn|].
  apply In_nth_error in Rin. destruct Rin as (i & Hi).
  destruct (dispatched_nth reviver _ (nextPromise m1) i e Hi) as [Hev Hpk].
  exists (nextPromise m1 + i).
  pose proof (registerReviver_fields C reviver m1) as F. cbv zeta in F.
  destruct F as (Fc & _ & _ & Fa & _). split.
  - unfold calls_since. rewrite Fc, skipn_length_app.
    apply in_or_app. right. apply in_or_app. right. exact Hev.
  - apply fulfil_then_resolves. rewrite Fa. apply in_or_app. now right.
Qed.

(** X8.  A reviver registered while the callback of a panel is
    suspended at its [await] misses the panel: every reviver registered
    when the content was first needed refused it, so the callback goes on
    to queue the panel, after the registration has scanned the queue.
    The panel then sits in the queue, no reconstruction asked for it,
    although the new reviver is registered and, if it accepts the panel,
    [canRevive] answers true. *)
Theorem registration_during_await_misses_panel
    (m : Machine C) (webview : WebviewEditorInput) (reviver : WebviewReviver)
    (Hen : existsb (Nat.eqb (handle webview)) (unpopulated m) = true)
    (Hacc : accounted_for m (handle webview))
    (Hidle : microtasks m = [])
    (Href : forall r w, In r (_revivers m) ->
              answer_canRevive C w r webview = false) :
  let m' := run C [Populate webview; DoRegisterReviver reviver; Tick] m in
  In reviver (_revivers m')
  /\ (exists q, In {| input := webview; resolve := q |} (_awaitingRevival m'))
  /\ queued m' (handle webview) = 1
  /\ dispatched m' (handle webview) = 0
  /\ ((forall w, answer_canRevive C w reviver webview = true) ->
      eval (canRevive C webview) m' = true).
Proof.
  cbv zeta.
  destruct (dormant_not_queued m (handle webview) Hacc Hen)
    as (Hq0 & Hd0 & _).
  pose proof (populate_refused m webview Hen Href) as P. cbv zeta in P.
  destruct P as (Pc & Pm & Pq & _ & Pr & _).
  rewrite Hidle in Pm. simpl in Pm.
  change (run C [Populate webview; DoRegisterReviver reviver; Tick] m)
    with (exec (tick C)
            (exec (registerReviver C reviver) (exec (populate C webview) m))).
  set (m1 := exec (populate C webview) m) in *.
  pose proof (registerReviver_fields C reviver m1) as F. cbv zeta in F.
  destruct F as (Fc & Fr & Fq & _ & Fm & _).
  set (m2 := exec (registerReviver C reviver) m1) in *.
  rewrite Pm in Fm.
  pose proof (tick_enqueues m2 webview [] Fm) as T. cbv zeta in T.
  set (m3 := exec (tick C) m2) in *.
  destruct T as (Tq & _ & Tc & _ & Tr & _).
  assert (Hq1 : length (filter (entry_of (handle webview))
                          (_awaitingRevival m1)) = 0)
    by (rewrite Pq; exact Hq0).
  assert (Hkeep : length (filter (entry_of (handle webview))
                            (_awaitingRevival m2)) = 0).
  { rewrite Fq. pose proof (drain_exec C reviver m1) as D. cbv zeta in D.
    rewrite D. simpl.
    pose proof (filterM_shrinks C (second_pass C reviver)
                  (entry_of (handle webview)) (_awaitingRevival m1)
                  (log_all (probes reviver (_awaitingRevival m1))
                     (registered reviver m1))) as S.
    lia. }
  assert (Htake : length (filter (entry_of (handle webview))
                            (fst (drain C reviver m1))) = 0).
  { rewrite drain_eval.
    pose proof (filterM_shrinks C (first_pass C reviver)
                  (entry_of (handle webview)) (_awaitingRevival m1)
                  (registered reviver m1)) as S.
    lia. }
  split; [|split; [|split; [|split]]].
  - rewrite Tr, Fr. apply set_add_iff. now left.
  - exists (nextPromise m2). rewrite Tq. apply in_or_app. right. now left.
  - unfold queued. rewrite Tq, filter_app, length_app, Hkeep. simpl.
    unfold entry_of. simpl. now rewrite Nat.eqb_refl.
  - unfold dispatched in *. rewrite Tc, Fc, Pc.
    rewrite !filter_app, !length_app, !probes_idle, probe_all_idle,
      dispatched_events_count, Htake, Hd0. reflexivity.
  - intros Hyes. unfold eval, canRevive. rewrite Tr, Fr, Pr.
    assert (Hnew : ~ In reviver (_revivers m)).
    { intros Hin. specialize (Href reviver (world m) Hin).
      rewrite Hyes in Href. discriminate. }
    rewrite set_add_absent by exact Hnew.
    pose proof (canRevive_over_refused C webview (fun _ => false)
                  (_revivers m) [reviver] m3 Href (fun _ _ => eq_refl))
      as Hrun.
    change (fst (canRevive_over C (_revivers m ++ [reviver]) webview m3)
            = true).
    rewrite Hrun. simpl. unfold bind, call_canRevive. simpl.
    now rewrite Hyes.
Qed.

End Revival.

(** * Completion signals *)

Section SignalAccounting.

Variable C : Collaborators.

Lemma signal_frame (m m' : Machine C) q es :
  _awaitingRevival m' = _awaitingRevival m ->
  microtasks m' = microtasks m ->
  awaiting m' = awaiting m ->
  calls m' = calls m ++ es ->
  filter (is_resolve q) es = [] ->
  signal_weight m' q = signal_weight m q.
Proof.
  intros Q T A Hc He.
  unfold signal_weight, signal_queued, signal_pending, signal_resolved.
  rewrite Q, T, A, Hc, (filter_app (is_resolve q)), length_app, He.
  simpl. lia.
Qed.

Lemma signal_kept (m m' : Machine C) q :
  signal_weight m' q <= signal_weight m q ->
  nextPromise m <= nextPromise m' ->
  signal_accounted m q -> signal_accounted m' q.
Proof.
  unfold signal_accounted. intros Hw Hn H.
  destruct (q <? nextPromise m) eqn:E1, (q <? nextPromise m') eqn:E2;
    rewrite ?Nat.ltb_lt, ?Nat.ltb_ge in *; lia.
Qed.

Lemma probe_all_unresolving q webview rs :
  filter (is_resolve q) (probe_all rs webview) = [].
Proof. induction rs; simpl; auto. Qed.

Lemma probes_unresolving q reviver l :
  filter (is_resolve q) (probes reviver l) = [].
Proof. induction l; simpl; auto. Qed.

Lemma dispatched_events_unresolving q reviver : forall l p,
  filter (is_resolve q) (dispatched_events reviver l p) = [].
Proof. induction l as [|x l IH]; intros p; simpl; auto. Qed.

Lemma dispatched_parked_signals q : forall l p,
  length (filter (resolves q) (map snd (dispatched_parked l p)))
  = length (filter (signalled_by q) l).
Proof.
  induction l as [|x l IH]; intros p; simpl; auto.
  unfold signalled_by at 1. destruct (resolve x =? q); simpl;
    now rewrite IH.
Qed.

(** Fulfilling a promise moves continuations from parked to ready; it
    neither adds nor drops one. *)
Lemma fulfil_keeps_continuations (g : Continuation -> bool) p (m : Machine C) :
  length (filter g (microtasks (exec (fulfil C p) m)
                    ++ map snd (awaiting (exec (fulfil C p) m))))
  = length (filter g (microtasks m ++ map snd (awaiting m))).
Proof.
  unfold exec, fulfil. simpl.
  rewrite !filter_app, !length_app.
  pose proof (filter_partition_length
                (fun pk : Promise * Continuation => g (snd pk)) (awaits p)
                (awaiting m)) as H.
  assert (Hmap : forall l : list (Promise * Continuation),
            filter g (map snd l)
            = map snd (filter (fun pk => g (snd pk)) l)).
  { induction l as [|x l IH]; simpl; auto.
    destruct (g (snd x)); simpl; now rewrite IH. }
  rewrite !Hmap, !length_map. lia.
Qed.

Ltac plain_signal m q :=
  apply signal_kept;
  [ apply Nat.eq_le_incl; eapply (signal_frame m _ q);
    [ reflexivity | reflexivity | reflexivity
    | simpl; rewrite <- ?app_assoc; reflexivity
    | reflexivity ]
  | simpl; lia ].

Lemma signal_step (Hdet : deterministic_checks C) a (m : Machine C) q :
  signal_accounted m q -> signal_accounted (step C a m) q.
Proof.
  destruct a as [vt name so o loc ev | x g f | vt pid name icon st o loc
                | r | d | x | x | p | ]; simpl.
  - unfold exec, createWebview, bind, createInstance, emit.
    plain_signal m q.
  - unfold exec, revealWebview.
    destruct (same_group (webview_group x) (id g)).
    + plain_signal m q.
    + unfold bind, call_getGroup.
      destruct (answer_getGroup C (world m) (webview_group x));
        plain_signal m q.
  - unfold exec, reviveWebview, bind, createInstance. plain_signal m q.
  - pose proof (registerReviver_fields C r m) as F. cbv zeta in F.
    destruct F as (Fc & _ & Fq & Fa & Fm & _ & _ & Fp).
    destruct (drain_deterministic C r m (answer_canRevive C (world m) r))
      as [Dt Dk].
    { intros w e _. apply Hdet. }
    apply signal_kept; [|rewrite Fp; lia].
    unfold signal_weight, signal_queued, signal_pending, signal_resolved.
    rewrite Fc, Fq, Fa, Fm, Dt, Dk.
    rewrite map_app, !filter_app, !length_app.
    rewrite !probes_unresolving, dispatched_events_unresolving,
      dispatched_parked_signals.
    pose proof (filter_partition_length (signalled_by q)
                  (fun e => answer_canRevive C (world m) r (input e))
                  (_awaitingRevival m)) as P.
    cbv beta in P. simpl. lia.
  - destruct d as [r]. unfold exec, dispose.
    apply signal_kept; [|simpl; lia].
    apply Nat.eq_le_incl.
    apply (signal_frame m _ q []); try reflexivity.
    simpl. now rewrite app_nil_r.
  - unfold exec, canRevive.
    pose proof (canRevive_over_outcome C x (_revivers m) m) as H.
    cbv zeta in H.
    destruct H as ((asked & Hc & _) & _ & Q & A & T & _ & _ & P).
    apply signal_kept; [|rewrite P; lia].
    rewrite (signal_frame m _ q _ Q T A Hc); [lia|].
    apply probe_all_unresolving.
  - unfold exec, populate.
    destruct (existsb (Nat.eqb (handle x)) (unpopulated m)); [|auto].
    unfold revival_callback, bind, tryRevive.
    match goal with |- context [tryRevive_over C ?rs x ?m0] =>
      pose proof (tryRevive_over_outcome C x rs m0) as H;
      destruct (tryRevive_over C rs x m0) as [t m1] end.
    cbv zeta in H. simpl in H.
    destruct H as ((asked & H) & _ & Q & A & T & _).
    destruct H as [(-> & Hc & Hp) | (r & _ & -> & Hc & Hp)]; simpl.
    + apply signal_kept; [|simpl; rewrite Hp; simpl; lia].
      unfold signal_weight, signal_queued, signal_pending, signal_resolved.
      simpl. rewrite Q, A, T, Hc. simpl.
      rewrite !filter_app, !length_app, probe_all_unresolving. simpl. lia.
    + apply signal_kept; [|simpl; rewrite Hp; simpl; lia].
      unfold signal_weight, signal_queued, signal_pending, signal_resolved.
      simpl. rewrite Q, A, T, Hc. simpl.
      rewrite !map_app, !filter_app, !length_app, probe_all_unresolving.
      simpl. lia.
  - apply signal_kept; [|simpl; lia].
    unfold signal_weight, signal_pending.
    rewrite fulfil_keeps_continuations.
    unfold signal_queued, signal_resolved, exec, fulfil. simpl. lia.
  - rewrite tick_exec. destruct (microtasks m) as [|k rest] eqn:Hm; [auto|].
    destruct k as [x [|]|q'].
    + apply signal_kept; [|simpl; lia].
      unfold signal_weight, signal_queued, signal_pending, signal_resolved,
        exec. simpl. rewrite Hm. simpl.
      rewrite !filter_app, !length_app. simpl. lia.
    + unfold signal_accounted, signal_weight, signal_queued, signal_pending,
        signal_resolved, exec. simpl. rewrite Hm. simpl.
      rewrite !filter_app, !length_app. simpl.
      change (signalled_by q {| input := x; resolve := nextPromise m |})
        with (nextPromise m =? q).
      fold (signalled_by q).
      destruct (nextPromise m =? q) eqn:E.
      * apply Nat.eqb_eq in E. subst q.
        rewrite Nat.ltb_irrefl.
        assert (Hlt : (nextPromise m <? S (nextPromise m)) = true)
          by (apply Nat.ltb_lt; lia).
        rewrite Hlt. simpl. lia.
      * apply Nat.eqb_neq in E.
        destruct (q <? nextPromise m) eqn:E1,
          (q <? S (nextPromise m)) eqn:E2;
          rewrite ?Nat.ltb_lt, ?Nat.ltb_ge in *; simpl; lia.
    + apply signal_kept; [|simpl; lia].
      unfold signal_weight, signal_queued, signal_pending, signal_resolved,
        exec. simpl. rewrite Hm. simpl.
      rewrite !filter_app, !length_app. simpl.
      destruct (q' =? q); simpl; rewrite ?length_app; lia.
Qed.

Lemma signal_run (Hdet : deterministic_checks C) acts : forall m : Machine C,
  (forall q, signal_accounted m q) ->
  forall q, signal_accounted (run C acts m) q.
Proof.
  induction acts as [|a acts IH]; intros m H q; simpl; auto.
  apply IH. intros q'. now apply signal_step.
Qed.

(** X9.  When capability checks are functions of the panel, in every
    state the service can reach the resolver of a queue entry's promise
    has been called at most once; the entries of the queue have pairwise
    distinct promises; the promise of an entry still queued has not been
    resolved, nor is its resolution parked or ready; and no promise is
    resolved that has not been made. *)
Theorem signal_resolved_at_most_once
    (Hdet : deterministic_checks C) (w : World C) (acts : list Action) :
  let m := run C acts (init C w) in
  forall q,
    signal_resolved m q <= 1
    /\ signal_queued m q <= 1
    /\ (1 <= signal_queued m q ->
        signal_resolved m q = 0 /\ signal_pending m q = 0)
    /\ (nextPromise m <= q -> signal_resolved m q = 0).
Proof.
  cbv zeta. intros q.
  assert (H0 : forall q, signal_accounted (init C w) q).
  { intros q'. unfold signal_accounted, signal_weight, signal_queued,
      signal_pending, signal_resolved. simpl. lia. }
  pose proof (signal_run Hdet acts (init C w) H0 q) as H.
  unfold signal_accounted, signal_weight in H.
  destruct (q <? nextPromise (run C acts (init C w))) eqn:E;
    rewrite ?Nat.ltb_lt, ?Nat.ltb_ge in E; repeat split; lia.
Qed.

End SignalAccounting.

(** * Equality of option sets *)

Section Options.

Variable equals : list URI -> list URI -> (URI -> URI -> bool) -> bool.

Lemma strictEq_true a b : strictEq a b = true <-> a = b.
Proof.
  destruct a as [[|]|], b as [[|]|]; simpl; split; intros H;
    try reflexivity; try discriminate.
Qed.

Lemma strictEq_sym a b : strictEq a b = strictEq b a.
Proof. destruct a as [[|]|], b as [[|]|]; reflexivity. Qed.

Lemma flags_decide same a b :
  areWebviewInputOptionsEqual equals same a b = true ->
  flags_agree a b.
Proof.
  unfold areWebviewInputOptionsEqual, flags_agree. intros H.
  repeat (apply andb_true_iff in H; destruct H as [H ?]).
  repeat split; now apply strictEq_true.
Qed.

(** X10.  Whatever [equals] does with two arrays: option sets that
    compare equal agree on each of the five flags and either both carry
    resource roots or neither does; when neither carries roots they are
    equal exactly if the five flags agree; and an option set compared
    with itself is equal. *)
Theorem options_equality_decided_by_flags
    (same : bool) (a b : WebviewInputOptions) :
  (areWebviewInputOptionsEqual equals same a b = true ->
   flags_agree a b
   /\ isArray (localResourceRoots a) = isArray (localResourceRoots b))
  /\ (localResourceRoots a = None -> localResourceRoots b = None ->
      (areWebviewInputOptionsEqual equals same a b = true
       <-> flags_agree a b))
  /\ areWebviewInputOptionsEqual equals true a a = true.
Proof.
  split; [|split].
  - intros H. split; [exact (flags_decide same a b H)|].
    unfold areWebviewInputOptionsEqual in H.
    apply andb_true_iff in H. destruct H as [_ H].
    unfold roots_identical in H.
    destruct (localResourceRoots a), (localResourceRoots b); simpl in *;
      auto; discriminate.
  - intros Ha Hb. split; [apply flags_decide|].
    intros (H1 & H2 & H3 & H4 & H5).
    unfold areWebviewInputOptionsEqual, roots_identical.
    rewrite Ha, Hb.
    apply strictEq_true in H1, H2, H3, H4, H5.
    now rewrite H1, H2, H3, H4, H5.
  - unfold areWebviewInputOptionsEqual, roots_identical.
    assert (R : forall v, strictEq v v = true)
      by (intros v; now apply strictEq_true).
    rewrite !R. simpl. now destruct (localResourceRoots a).
Qed.

(** X11.  If [equals], given the comparison by [toString()], answers the
    same for two arrays in either order, the comparison of option sets
    does not depend on the order of its arguments. *)
Theorem options_equality_symmetric
    (same : bool) (a b : WebviewInputOptions)
    (Hsym : forall la lb, equals la lb String.eqb = equals lb la String.eqb) :
  areWebviewInputOptionsEqual equals same a b
  = areWebviewInputOptionsEqual equals same b a.
Proof.
  unfold areWebviewInputOptionsEqual, roots_identical.
  rewrite (strictEq_sym (enableCommandUris a)),
    (strictEq_sym (enableFindWidget a)), (strictEq_sym (enableScripts a)),
    (strictEq_sym (retainContextWhenHidden a)),
    (strictEq_sym (tryRestoreScrollPosition a)).
  rewrite (Hsym (arrayOf (localResourceRoots a))).
  destruct (localResourceRoots a), (localResourceRoots b); simpl;
    reflexivity.
Qed.

End Options.

(** * What a run does to the registry's revivers and to the queue's order *)

Section Runs.

Variable C : Collaborators.

Lemma probe_all_on reviver webview rs :
  ~ In reviver rs -> filter (calls_on reviver) (probe_all rs webview) = [].
Proof.
  induction rs as [|r rs IH]; simpl; intros H; auto.
  destruct (r =? reviver) eqn:E.
  - apply Nat.eqb_eq in E. exfalso. apply H. now left.
  - apply IH. intros Hin. apply H. now right.
Qed.

Lemma probes_on reviver other l :
  other <> reviver -> filter (calls_on reviver) (probes other l) = [].
Proof.
  intros Hne. apply Nat.eqb_neq in Hne.
  induction l as [|x l IH]; simpl; auto. now rewrite Hne.
Qed.

Lemma dispatched_events_on reviver other : other <> reviver ->
  forall l p, filter (calls_on reviver) (dispatched_events other l p) = [].
Proof.
  intros Hne. apply Nat.eqb_neq in Hne.
  induction l as [|x l IH]; intros p; simpl; auto. now rewrite Hne.
Qed.

(** [tryRevive] calls registered revivers only. *)
Lemma tryRevive_over_calls reviver webview : forall rs (m : Machine C),
  ~ In reviver rs ->
  exists es,
    calls (snd (tryRevive_over C rs webview m)) = calls m ++ es
    /\ filter (calls_on reviver) es = [].
Proof.
  induction rs as [|r rs IH]; intros m Hout; simpl.
  - exists []. now rewrite app_nil_r.
  - assert (Hr : (r =? reviver) = false).
    { apply Nat.eqb_neq. intros ->. apply Hout. now left. }
    unfold bind, call_canRevive, call_reviveWebview. simpl.
    destruct (answer_canRevive C (world m) r webview); simpl.
    + exists [EvCanRevive r webview;
              EvReviveWebview r webview (nextPromise m)].
      rewrite <- app_assoc. simpl. now rewrite Hr.
    + destruct (IH (with_log C (EvCanRevive r webview) m)) as (es & Hc & He).
      { intros Hin. apply Hout. now right. }
      exists (EvCanRevive r webview :: es). simpl in *.
      rewrite Hc, <- app_assoc, Hr. auto.
Qed.

Lemma uncalled_step reviver a (m : Machine C) :
  is_registration_of reviver a = false ->
  ~ In reviver (_revivers m) ->
  exists es,
    calls (step C a m) = calls m ++ es
    /\ filter (calls_on reviver) es = []
    /\ ~ In reviver (_revivers (step C a m)).
Proof.
  intros Ha Hout.
  assert (Hreg : ~ In reviver (_revivers (step C a m))).
  { rewrite revivers_step.
    destruct a as [| | | r | [r] | | | | ]; auto.
    - simpl in Ha. apply Nat.eqb_neq in Ha. intros H.
      apply set_add_iff in H. destruct H as [H|H]; [congruence | auto].
    - intros H. apply Hout. eapply set_remove_1. exact H. }
  destruct a as [vt name so o loc ev | x g f | vt pid name icon st o loc
                | r | d | x | x | p | ]; simpl in *.
  - eexists [_; _].
    split; [unfold exec, createWebview, bind, createInstance, emit; simpl;
            now rewrite <- app_assoc|].
    split; [reflexivity | exact Hreg].
  - unfold exec, revealWebview in *.
    destruct (same_group (webview_group x) (id g)).
    + eexists [_]. split; [reflexivity|]. split; [reflexivity | exact Hreg].
    + unfold bind, call_getGroup in *.
      destruct (answer_getGroup C (world m) (webview_group x)).
      * eexists [_; _]. split; [simpl; now rewrite <- app_assoc|].
        split; [reflexivity | exact Hreg].
      * eexists [_]. split; [reflexivity|].
        split; [reflexivity | exact Hreg].
  - eexists [_]. split; [reflexivity|]. split; [reflexivity | exact Hreg].
  - apply Nat.eqb_neq in Ha.
    pose proof (registerReviver_fields C r m) as F. cbv zeta in F.
    destruct F as (Fc & _).
    eexists. split; [exact Fc|]. split; [|exact Hreg].
    rewrite !filter_app, !probes_on, dispatched_events_on by exact Ha.
    reflexivity.
  - destruct d as [r]. exists []. split; [simpl; now rewrite app_nil_r|].
    split; [reflexivity | exact Hreg].
  - unfold exec, canRevive in *.
    pose proof (canRevive_over_outcome C x (_revivers m) m) as H.
    cbv zeta in H. destruct H as ((asked & Hc & Hi) & _).
    eexists. split; [exact Hc|]. split; [|exact Hreg].
    apply probe_all_on. intros Hin. apply Hout. now apply Hi.
  - unfold exec, populate in *.
    destruct (existsb (Nat.eqb (handle x)) (unpopulated m)).
    + unfold revival_callback, bind, tryRevive in *.
      match goal with |- context [tryRevive_over C ?rs x ?m0] =>
        destruct (tryRevive_over_calls reviver x rs m0 Hout)
          as (es & Hc & He);
        destruct (tryRevive_over C rs x m0) as [t m1] end.
      simpl in Hc. exists es.
      split; [destruct t; simpl; exact Hc|]. split; [exact He | exact Hreg].
    + exists []. split; [simpl; now rewrite app_nil_r|].
      split; [reflexivity | exact Hreg].
  - exists []. split; [simpl; now rewrite app_nil_r|].
    split; [reflexivity | exact Hreg].
  - pose proof (run_continuation_calls C) as K.
    rewrite tick_exec in *. destruct (microtasks m) as [|k rest].
    + exists []. split; [now rewrite app_nil_r|].
      split; [reflexivity | exact Hreg].
    + eexists. split; [exact (K k (with_microtasks C rest m))|].
      split; [|exact Hreg].
      destruct k as [y [|]|q]; reflexivity.
Qed.

(** X12.  A reviver that is not in the registry, because it never was
    registered or because its handle was invoked, is not called by the
    service, neither for a capability check nor for a reconstruction,
    through anything the service does, until it is registered again. *)
Theorem unregistered_reviver_never_called
    (m : Machine C) (reviver : WebviewReviver) (acts : list Action)
    (Hout : ~ In reviver (_revivers m))
    (Hnone : forallb (fun a => negb (is_registration_of reviver a)) acts
             = true) :
  filter (calls_on reviver) (calls_since m (run C acts m)) = []
  /\ ~ In reviver (_revivers (run C acts m)).
Proof.
  assert (H : forall acts (m : Machine C),
            ~ In reviver (_revivers m) ->
            forallb (fun a => negb (is_registration_of reviver a)) acts
            = true ->
            exists es, calls (run C acts m) = calls m ++ es
                       /\ filter (calls_on reviver) es = []
                       /\ ~ In reviver (_revivers (run C acts m))).
  { clear. induction acts as [|a acts IH]; intros m Hout Hn; simpl.
    - exists []. now rewrite app_nil_r.
    - simpl in Hn. apply andb_true_iff in Hn. destruct Hn as [Ha Hn].
      apply negb_true_iff in Ha.
      destruct (uncalled_step reviver a m Ha Hout) as (es & Hc & He & Hr).
      destruct (IH (step C a m) Hr Hn) as (es' & Hc' & He' & Hr').
      exists (es ++ es'). rewrite Hc', Hc, <- app_assoc, filter_app, He, He'.
      auto. }
  destruct (H acts m Hout Hnone) as (es & Hc & He & Hr).
  split; [|exact Hr]. unfold calls_since.
  now rewrite Hc, skipn_length_app.
Qed.

Lemma subseq_refl {A : Type} (l : list A) : subseq l l.
Proof.
  induction l as [|x l IH]; [constructor | now apply subseq_take].
Qed.

Lemma subseq_trans {A : Type} (l1 l2 l3 : list A) :
  subseq l1 l2 -> subseq l2 l3 -> subseq l1 l3.
Proof.
  intros H12 H23. revert l1 H12.
  induction H23 as [|x l l' _ IH|x l l' _ IH]; intros l1 H12.
  - exact H12.
  - apply subseq_skip. now apply IH.
  - inversion H12; subst.
    + apply subseq_skip. now apply IH.
    + apply subseq_take. now apply IH.
Qed.

Lemma subseq_app_split {A : Type} (l2 l3 : list A) : forall l,
  subseq l (l2 ++ l3) ->
  exists a b, l = a ++ b /\ subseq a l2 /\ subseq b l3.
Proof.
  induction l2 as [|x l2 IH]; intros l H; simpl in H.
  - exists [], l. repeat split; [constructor | exact H].
  - inversion H; subst.
    + destruct (IH _ H2) as (a & b & -> & Ha & Hb).
      exists a, b. repeat split; [now apply subseq_skip | exact Hb].
    + destruct (IH _ H2) as (a & b & -> & Ha & Hb).
      exists (x :: a), b. repeat split; [now apply subseq_take | exact Hb].
Qed.

(** One step either leaves the queue, thins it out, or appends one entry
    whose promise is new. *)
Lemma queue_step a (m : Machine C) :
  nextPromise m <= nextPromise (step C a m)
  /\ exists kept added,
       _awaitingRevival (step C a m) = kept ++ added
       /\ subseq kept (_awaitingRevival m)
       /\ (forall e, In e added ->
             nextPromise m <= resolve e < nextPromise (step C a m)).
Proof.
  assert (Same : forall m' : Machine C,
            _awaitingRevival m' = _awaitingRevival m ->
            nextPromise m <= nextPromise m' ->
            nextPromise m <= nextPromise m'
            /\ exists kept added,
                 _awaitingRevival m' = kept ++ added
                 /\ subseq kept (_awaitingRevival m)
                 /\ (forall e, In e added ->
                       nextPromise m <= resolve e < nextPromise m')).
  { intros m' Q P. split; [exact P|]. exists (_awaitingRevival m), [].
    rewrite app_nil_r. split; [exact Q|]. split; [apply subseq_refl|].
    intros e []. }
  destruct a as [vt name so o loc ev | x g f | vt pid name icon st o loc
                | r | d | x | x | p | ]; simpl.
  - apply Same; [reflexivity | simpl; lia].
  - unfold exec, revealWebview.
    destruct (same_group (webview_group x) (id g));
      [apply Same; [reflexivity | simpl; lia]|].
    unfold bind, call_getGroup.
    destruct (answer_getGroup C (world m) (webview_group x));
      apply Same; try reflexivity; simpl; lia.
  - apply Same; [reflexivity | simpl; lia].
  - pose proof (registerReviver_fields C r m) as F. cbv zeta in F.
    destruct F as (_ & _ & Fq & _ & _ & _ & _ & Fp).
    split; [rewrite Fp; lia|].
    exists (_awaitingRevival (exec (registerReviver C r) m)), [].
    rewrite app_nil_r. split; [reflexivity|]. split; [|intros e []].
    rewrite Fq. pose proof (drain_exec C r m) as D. cbv zeta in D.
    rewrite D. simpl. apply filterM_subseq.
  - destruct d as [r]. apply Same; [reflexivity | simpl; lia].
  - unfold exec, canRevive.
    pose proof (canRevive_over_outcome C x (_revivers m) m) as H.
    cbv zeta in H. destruct H as (_ & _ & Q & _ & _ & _ & _ & P).
    apply Same; [exact Q | rewrite P; lia].
  - unfold exec, populate.
    destruct (existsb (Nat.eqb (handle x)) (unpopulated m));
      [|apply Same; [reflexivity | simpl; lia]].
    unfold revival_callback, bind, tryRevive.
    match goal with |- context [tryRevive_over C ?rs x ?m0] =>
      pose proof (tryRevive_over_outcome C x rs m0) as H;
      destruct (tryRevive_over C rs x m0) as [t m1] end.
    cbv zeta in H. simpl in H. destruct H as ((asked & H) & _ & Q & _).
    destruct H as [(-> & _ & P) | (r & _ & -> & _ & P)]; simpl;
      apply Same; simpl; try exact Q; rewrite P; simpl; lia.
  - apply Same; [reflexivity | simpl; lia].
  - rewrite tick_exec. destruct (microtasks m) as [|k rest] eqn:Hm;
      [apply Same; [reflexivity | lia]|].
    destruct k as [y [|]|q].
    + apply Same; [reflexivity | simpl; lia].
    + unfold exec. simpl. split; [lia|].
      exists (_awaitingRevival m),
        [{| input := y; resolve := nextPromise m |}].
      split; [reflexivity|]. split; [apply subseq_refl|].
      intros e [<-|[]]. simpl. lia.
    + apply Same; [reflexivity | simpl; lia].
Qed.

(** X13.  Over any run the queue keeps arrival order: the entries of
    the starting queue that are still queued stand first and in their old
    relative order, and every entry that arrived during the run stands
    after them, carrying a promise made during the run. *)
Theorem queue_keeps_arrival_order (acts : list Action) : forall m : Machine C,
  nextPromise m <= nextPromise (run C acts m)
  /\ exists kept added,
       _awaitingRevival (run C acts m) = kept ++ added
       /\ subseq kept (_awaitingRevival m)
       /\ (forall e, In e added ->
             nextPromise m <= resolve e < nextPromise (run C acts m)).
Proof.
  induction acts as [|a acts IH]; intros m; simpl.
  - split; [lia|]. exists (_awaitingRevival m), []. rewrite app_nil_r.
    split; [reflexivity|]. split; [apply subseq_refl | intros e []].
  - destruct (queue_step a m) as (Hp & k & ad & Hq & Hk & Had).
    destruct (IH (step C a m)) as (Hp' & k' & ad' & Hq' & Hk' & Had').
    split; [lia|].
    rewrite Hq in Hk'. apply subseq_app_split in Hk'.
    destruct Hk' as (k1 & k2 & -> & Hk1 & Hk2).
    exists k1, (k2 ++ ad'). rewrite Hq', <- app_assoc.
    split; [reflexivity|]. split; [now apply (subseq_trans k1 k)|].
    intros e He. apply in_app_or in He. destruct He as [He|He].
    + apply (subseq_incl _ _ Hk2) in He. specialize (Had e He). lia.
    + specialize (Had' e He). lia.
Qed.

End Runs.

(** * Restoring a panel *)

Section Restoring.

Variable C : Collaborators.

(** X14.  [reviveWebview] asks once for a [RevivedWebviewEditorInput],
    built with the persisted id, the persisted state and no event
    handlers, and opens no editor; the icon is put on the panel after it
    was built, so the panel returned carries it though the panel built
    did not.  The panel returned is dormant: in a machine whose next
    handle is unused it is accounted for, with its callback still to be
    invoked, and neither the registry, the queue nor any continuation has
    changed. *)
Theorem reviveWebview_returns_dormant_panel
    (m : Machine C) (vt : string) (pid : Z) (name : string)
    (icon : option IconPath) (st : any) (o : WebviewInputOptions)
    (loc : option URI)
    (Hfree : accounted_for m (nextHandle m)) :
  let x := eval (reviveWebview C vt pid name icon st o loc) m in
  let m' := exec (reviveWebview C vt pid name icon st o loc) m in
  calls_since m m'
  = [EvCreateInstance RevivedWebviewEditorInputCtor (set_iconPath x None)]
  /\ iconPath x = icon
  /\ (viewType x = vt /\ persistedId x = Some pid /\ title x = name
      /\ state x = st /\ events x = noEvents /\ webview_group x = None)
  /\ existsb (Nat.eqb (handle x)) (unpopulated m') = true
  /\ accounted_for m' (handle x)
  /\ dormant m' (handle x) = 1
  /\ _revivers m' = _revivers m
  /\ _awaitingRevival m' = _awaitingRevival m
  /\ awaiting m' = awaiting m
  /\ microtasks m' = microtasks m.
Proof.
  cbv zeta. unfold accounted_for, weight in Hfree.
  rewrite Nat.ltb_irrefl in Hfree.
  unfold calls_since, eval, exec, reviveWebview, bind, createInstance.
  simpl. rewrite skipn_length_app.
  assert (Hd : count_occ Nat.eq_dec (unpopulated m ++ [nextHandle m])
                 (nextHandle m) = 1).
  { rewrite count_occ_app. simpl.
    destruct (Nat.eq_dec (nextHandle m) (nextHandle m)); [|congruence].
    unfold dormant in Hfree. lia. }
  split; [reflexivity|]. split; [reflexivity|].
  split; [repeat split|]. split.
  - rewrite existsb_app. simpl. rewrite Nat.eqb_refl. simpl.
    apply orb_true_r.
  - split; [|split; [exact Hd | repeat split]].
    unfold accounted_for, weight, dormant, arriving, queued, dispatched.
    simpl. rewrite Hd.
    assert (Hlt : (nextHandle m <? S (nextHandle m)) = true)
      by (apply Nat.ltb_lt; lia).
    rewrite Hlt, !filter_app, !length_app. simpl.
    unfold arriving, queued, dispatched in Hfree.
    rewrite filter_app, length_app in Hfree. lia.
Qed.

End Restoring.

(** * The further theorems at concrete runs *)

Section MoreInstances.

Import Scenario.
Import String.StringSyntax.
Local Open Scope string_scope.

Lemma no_completion_without_fulfilment_witness :
  forallb (fun a => negb (is_fulfil a)) unanswered_run = true
  /\ filter is_completion (calls (run plugins unanswered_run (init plugins 0)))
     = []
  /\ dispatched (run plugins unanswered_run (init plugins 0)) 0 = 1.
Proof.
  assert (H : forallb (fun a => negb (is_fulfil a)) unanswered_run = true)
    by reflexivity.
  split; [exact H|]. split.
  - exact (no_completion_without_fulfilment plugins 0 unanswered_run H).
  - reflexivity.
Defined.


Lemma deferred_revival_completes_witness :
  existsb (Nat.eqb (handle preview)) (unpopulated restored_beside_other) = true
  /\ accounted_for restored_beside_other (handle preview)
  /\ microtasks restored_beside_other = []
  /\ (forall r w, In r (_revivers restored_beside_other) ->
        answer_canRevive plugins w r preview = false)
  /\ (forall w, answer_canRevive plugins w 1 preview = true)
  /\ queued (exec (registerReviver plugins 1)
               (run plugins [Populate preview; Tick] restored_beside_other))
       (handle preview) = 0.
Proof.
  assert (Hen : existsb (Nat.eqb (handle preview))
                  (unpopulated restored_beside_other) = true) by reflexivity.
  assert (Hacc : accounted_for restored_beside_other (handle preview))
    by (vm_compute; lia).
  assert (Hidle : microtasks restored_beside_other = []) by reflexivity.
  assert (Href : forall r w, In r (_revivers restored_beside_other) ->
                   answer_canRevive plugins w r preview = false)
    by (intros r w [<-|[]]; reflexivity).
  assert (Hyes : forall w, answer_canRevive plugins w 1 preview = true)
    by (intros; reflexivity).
  repeat (split; [assumption|]).
  pose proof (deferred_revival_completes plugins restored_beside_other
                preview 1 Hen Hacc Hidle Href Hyes) as T.
  cbv zeta in T. destruct T as (_ & _ & Tq & _). exact Tq.
Defined.

Lemma registration_during_await_misses_panel_witness :
  existsb (Nat.eqb (handle preview)) (unpopulated restored_beside_other) = true
  /\ accounted_for restored_beside_other (handle preview)
  /\ microtasks restored_beside_other = []
  /\ (forall r w, In r (_revivers restored_beside_other) ->
        answer_canRevive plugins w r preview = false)
  /\ (let m' := run plugins [Populate preview; DoRegisterReviver 1; Tick]
                  restored_beside_other in
      queued m' (handle preview) = 1
      /\ dispatched m' (handle preview) = 0
      /\ eval (canRevive plugins preview) m' = true).
Proof.
  assert (Hen : existsb (Nat.eqb (handle preview))
                  (unpopulated restored_beside_other) = true) by reflexivity.
  assert (Hacc : accounted_for restored_beside_other (handle preview))
    by (vm_compute; lia).
  assert (Hidle : microtasks restored_beside_other = []) by reflexivity.
  assert (Href : forall r w, In r (_revivers restored_beside_other) ->
                   answer_canRevive plugins w r preview = false)
    by (intros r w [<-|[]]; reflexivity).
  repeat (split; [assumption|]).
  pose proof (registration_during_await_misses_panel plugins
                restored_beside_other preview 1 Hen Hacc Hidle Href) as T.
  cbv zeta in T. destruct T as (_ & _ & Tq & Td & Tc).
  cbv zeta. split; [exact Tq|]. split; [exact Td|].
  apply Tc. intros; reflexivity.
Defined.

Lemma signal_resolved_at_most_once_witness :
  deterministic_checks plugins
  /\ signal_resolved (run plugins answered_run (init plugins 0)) 0 <= 1
  /\ signal_resolved (run plugins answered_run (init plugins 0)) 0 = 1.
Proof.
  assert (H : deterministic_checks plugins) by (intros r x w w'; reflexivity).
  split; [exact H|]. split.
  - exact (proj1 (signal_resolved_at_most_once plugins H 0 answered_run 0)).
  - reflexivity.
Defined.

Lemma pairwise_sym : forall la lb,
  pairwise la lb String.eqb = pairwise lb la String.eqb.
Proof.
  induction la as [|x la IH]; destruct lb as [|y lb]; simpl; auto.
  now rewrite String.eqb_sym, IH.
Qed.

Lemma options_equality_symmetric_witness :
  (forall la lb, pairwise la lb String.eqb = pairwise lb la String.eqb)
  /\ areWebviewInputOptionsEqual pairwise false noOptions
       {| enableCommandUris := None; enableFindWidget := None;
          enableScripts := Some true; retainContextWhenHidden := None;
          tryRestoreScrollPosition := None; localResourceRoots := None |}
     = areWebviewInputOptionsEqual pairwise false
         {| enableCommandUris := None; enableFindWidget := None;
            enableScripts := Some true; retainContextWhenHidden := None;
            tryRestoreScrollPosition := None; localResourceRoots := None |}
         noOptions.
Proof.
  split; [exact pairwise_sym|].
  exact (options_equality_symmetric pairwise false noOptions _ pairwise_sym).
Defined.

Lemma unregistered_reviver_never_called_witness :
  ~ In 1 (_revivers restored_beside_other)
  /\ forallb (fun a => negb (is_registration_of 1 a))
       [Populate preview; Tick; DoRegisterReviver 0; DoCanRevive preview;
        DoDispose (toDisposable 0); DoRegisterReviver 2] = true
  /\ filter (calls_on 1)
       (calls_since restored_beside_other
          (run plugins
             [Populate preview; Tick; DoRegisterReviver 0;
              DoCanRevive preview; DoDispose (toDisposable 0);
              DoRegisterReviver 2] restored_beside_other)) = [].
Proof.
  assert (Hout : ~ In 1 (_revivers restored_beside_other))
    by (intros [H|[]]; discriminate H).
  assert (Hnone : forallb (fun a => negb (is_registration_of 1 a))
                    [Populate preview; Tick; DoRegisterReviver 0;
                     DoCanRevive preview; DoDispose (toDisposable 0);
                     DoRegisterReviver 2] = true) by reflexivity.
  split; [exact Hout|]. split; [exact Hnone|].
  exact (proj1 (unregistered_reviver_never_called plugins
                  restored_beside_other 1 _ Hout Hnone)).
Defined.

Lemma reviveWebview_returns_dormant_panel_witness :
  accounted_for two_revivers (nextHandle two_revivers)
  /\ eval (reviveWebview plugins "markdown.preview" 7%Z "Preview"
             (Some {| light := "l.svg"; dark := "d.svg" |}) (opaque "{}")
             noOptions None) two_revivers
     = set_iconPath preview (Some {| light := "l.svg"; dark := "d.svg" |})
  /\ calls_since two_revivers
       (exec (reviveWebview plugins "markdown.preview" 7%Z "Preview"
                (Some {| light := "l.svg"; dark := "d.svg" |}) (opaque "{}")
                noOptions None) two_revivers)
     = [EvCreateInstance RevivedWebviewEditorInputCtor preview].
Proof.
  assert (H : accounted_for two_revivers (nextHandle two_revivers))
    by (vm_compute; lia).
  split; [exact H|]. split; [reflexivity|].
  exact (proj1 (reviveWebview_returns_dormant_panel plugins two_revivers
                  "markdown.preview" 7%Z "Preview"
                  (Some {| light := "l.svg"; dark := "d.svg" |})
                  (opaque "{}") noOptions None H)).
Defined.

End MoreInstances.
